(** * Destiny Tarot: the session engine of [index.tsx]

    A shallow embedding of the program's logic: the deck catalogue and
    the card metadata ([MAJOR_ARCANA], [FULL_DECK], [toRoman],
    [getCardMetadata]), the circular layout ([cardLayout]), the event
    handlers of the [App] component ([handleStart], [handleCardSelect],
    [generateCardImage], [generateReading], [resetGame]) and the event
    loop that runs them (timers and requests in flight).

    Conventions.
    - A JavaScript string is a [string] of UTF-8 bytes.  Substring
      search on UTF-8 bytes agrees with substring search on characters.
    - A JavaScript number is a rational [Q] (every double is one).
      Where the program cuts a number ([Math.floor] of a product, a
      comparison with a literal) the product and the literal are
      rounded to binary64 as the engine does ([toNumber]).  In the
      layout, whose values vary continuously with the draws, [+ - * /]
      are exact, and [Math.cos], [Math.sin] and [Math.PI] are the real
      ones, so the two coordinates of a layout slot are real numbers.
    - [Math.random()] is a stream: its n-th call returns [Math_random n].
    - An event handler, a timer callback or the continuation of an
      [await] runs to its end, its updates are committed together and
      the component is rendered before the next one starts.  Delays
      are not measured: a pending timer or request may end at any
      later turn.
    - A call of the generative service that throws before it is sent
      is a request that is rejected.
*)

From Stdlib Require Import ZArith QArith Qround Qabs Reals Qreals.
From Stdlib Require Import List String Ascii Bool Permutation Sorted.
From Stdlib Require Import Lia Psatz.
From Stdlib Require SpecFloat.
Import ListNotations.

Local Close Scope R_scope.
Local Close Scope Q_scope.
Local Open Scope string_scope.

(* ================================================================= *)
(** ** Strings *)

Module JsString.

(** [s.includes(t)]: [t] occurs in [s]. *)
Fixpoint includes (s t : string) : bool :=
  if prefix t s then true
  else match s with
       | EmptyString => false
       | String _ s' => includes s' t
       end.

(** [s.split(' ')[0]]: the text before the first space (all of [s]
    when it has none). *)
Fixpoint firstWord (s : string) : string :=
  match s with
  | EmptyString => EmptyString
  | String c s' => if Ascii.eqb c " " then EmptyString else String c (firstWord s')
  end.

(** [arr.indexOf(x)]: the first position of [x], or -1. *)
Fixpoint indexOfFrom (i : Z) (arr : list string) (x : string) : Z :=
  match arr with
  | [] => (-1)%Z
  | y :: arr' => if String.eqb y x then i else indexOfFrom (i + 1)%Z arr' x
  end.

Definition indexOf (arr : list string) (x : string) : Z := indexOfFrom 0%Z arr x.

(** The white space and line terminators [trim] removes, as they are
    written in UTF-8.  One byte: TAB, LF, VT, FF, CR, SP. *)
Definition isSpace1 (c : ascii) : bool :=
  let n := nat_of_ascii c in (((9 <=? n) && (n <=? 13)) || (n =? 32))%nat.

(** Two bytes: U+00A0 is C2 A0. *)
Definition isSpace2 (c1 c2 : ascii) : bool :=
  ((nat_of_ascii c1 =? 194) && (nat_of_ascii c2 =? 160))%nat.

(** Three bytes: U+1680 (E1 9A 80), U+2000..U+200A (E2 80 80..8A),
    U+2028, U+2029, U+202F (E2 80 A8, A9, AF), U+205F (E2 81 9F),
    U+3000 (E3 80 80) and U+FEFF (EF BB BF). *)
Definition isSpace3 (c1 c2 c3 : ascii) : bool :=
  let a := nat_of_ascii c1 in
  let b := nat_of_ascii c2 in
  let c := nat_of_ascii c3 in
  (((a =? 225) && (b =? 154) && (c =? 128))
   || ((a =? 226) && (b =? 128)
       && (((128 <=? c) && (c <=? 138)) || (c =? 168) || (c =? 169) || (c =? 175)))
   || ((a =? 226) && (b =? 129) && (c =? 159))
   || ((a =? 227) && (b =? 128) && (c =? 128))
   || ((a =? 239) && (b =? 187) && (c =? 191)))%nat.

(** [trimStart] on the bytes in reading order, and the same on the
    bytes in reverse ([fwd = false]: each character's bytes arrive
    last byte first). *)
Fixpoint dropSpaces (fwd : bool) (s : list ascii) : list ascii :=
  match s with
  | [] => []
  | c1 :: s1 =>
      if isSpace1 c1 then dropSpaces fwd s1
      else match s1 with
           | [] => s
           | c2 :: s2 =>
               if (if fwd then isSpace2 c1 c2 else isSpace2 c2 c1) then dropSpaces fwd s2
               else match s2 with
                    | [] => s
                    | c3 :: s3 =>
                        if (if fwd then isSpace3 c1 c2 c3 else isSpace3 c3 c2 c1)
                        then dropSpaces fwd s3
                        else s
                    end
           end
  end.

(** [s.trim()] *)
Definition trim (s : string) : string :=
  string_of_list_ascii
    (rev (dropSpaces false (rev (dropSpaces true (list_ascii_of_string s))))).

(** A string is falsy exactly when it is empty. *)
Definition truthy (s : string) : bool :=
  match s with EmptyString => false | String _ _ => true end.

End JsString.

(* ================================================================= *)
(** ** Tarot data *)

Definition MAJOR_ARCANA : list string :=
  [ "The Fool (愚者)"; "The Magician (魔术师)"; "The High Priestess (女祭司)"; "The Empress (皇后)";
    "The Emperor (皇帝)"; "The Hierophant (教皇)"; "The Lovers (恋人)"; "The Chariot (战车)";
    "Strength (力量)"; "The Hermit (隐士)"; "Wheel of Fortune (命运之轮)"; "Justice (正义)";
    "The Hanged Man (倒吊人)"; "Death (死神)"; "Temperance (节制)"; "The Devil (恶魔)";
    "The Tower (高塔)"; "The Star (星星)"; "The Moon (月亮)"; "The Sun (太阳)";
    "Judgement (审判)"; "The World (世界)" ].

Definition SUITS : list string :=
  [ "Wands (权杖)"; "Cups (圣杯)"; "Swords (宝剑)"; "Pentacles (星币)" ].

Definition RANKS : list string :=
  [ "Ace"; "Two"; "Three"; "Four"; "Five"; "Six"; "Seven"; "Eight"; "Nine"; "Ten";
    "Page"; "Knight"; "Queen"; "King" ].

(** [[...MAJOR_ARCANA, ...SUITS.flatMap(suit => RANKS.map(rank => `${rank} of ${suit}`))]] *)
Definition FULL_DECK : list string :=
  MAJOR_ARCANA ++ flat_map (fun suit => map (fun rank => rank ++ " of " ++ suit) RANKS) SUITS.

(* ================================================================= *)
(** ** Helpers: [toRoman] and [getCardMetadata] *)

(** The keys of [lookup], in the order [for ... in] visits them. *)
Definition lookup : list (string * Z) :=
  [ ("M", 1000); ("CM", 900); ("D", 500); ("CD", 400); ("C", 100); ("XC", 90);
    ("L", 50); ("XL", 40); ("X", 10); ("IX", 9); ("V", 5); ("IV", 4); ("I", 1) ]%Z.

(** [while (num >= lookup[i]) { roman += i; num -= lookup[i]; }].
    [fuel] bounds the number of turns; [toRoman] gives it [num] turns,
    which the loop never uses up ([whileGe_exits]). *)
Fixpoint whileGe (fuel : nat) (key : string) (value : Z) (acc : string * Z) : string * Z :=
  match fuel with
  | O => acc
  | S fuel' =>
      let '(roman, num) := acc in
      if (value <=? num)%Z
      then whileGe fuel' key value (roman ++ key, (num - value)%Z)
      else acc
  end.

Definition toRoman (num : Z) : string :=
  if (num =? 0)%Z then "0"
  else fst (fold_left (fun acc kv => whileGe (Z.to_nat num) (fst kv) (snd kv) acc)
                      lookup ("", num)).

(** The placeholder icons of lucide-react the metadata chooses from. *)
Inductive IconName := Star | Sun | Moon | Flame | Crown | Shield | Droplets | Cloud | Leaf.

Record ColorTheme := { sky : string; ground : string; accent : string }.

Record CardMetadata := {
  isMajor : bool;
  number : string;
  suit : string;
  colorTheme : ColorTheme;
  Icon : IconName
}.

Definition getCardMetadata (name : string) : CardMetadata :=
  let includes := JsString.includes name in
  let major := existsb (fun m => includes (JsString.firstWord m)) MAJOR_ARCANA in
  let defaultTheme :=
    {| sky := "from-indigo-900 to-purple-800"; ground := "from-purple-900 to-black";
       accent := "text-yellow-400" |} in
  if major then
    let index := JsString.indexOf MAJOR_ARCANA name in
    let number := if (index =? -1)%Z then "" else toRoman index in
    let '(icon, theme) :=
      if includes "Sun" then
        (Sun, {| sky := "from-orange-300 to-yellow-200"; ground := "from-green-600 to-green-800";
                 accent := "text-orange-500" |})
      else if includes "Moon" then
        (Moon, {| sky := "from-blue-900 to-slate-800"; ground := "from-slate-900 to-black";
                  accent := "text-blue-200" |})
      else if includes "Star" then
        (Star, {| sky := "from-indigo-900 to-blue-600"; ground := "from-indigo-950 to-purple-900";
                  accent := "text-white" |})
      else if includes "Devil" || includes "Tower" then
        (Flame, {| sky := "from-slate-900 to-red-900"; ground := "from-black to-red-950";
                   accent := "text-red-500" |})
      else if includes "Fool" || includes "World" then
        (Crown, {| sky := "from-sky-300 to-blue-200"; ground := "from-emerald-600 to-green-700";
                   accent := "text-yellow-600" |})
      else (Shield, defaultTheme) in
    {| isMajor := major; number := number; suit := "Major"; colorTheme := theme; Icon := icon |}
  else
    let '(suit, theme, icon) :=
      if includes "Wands" then
        ("Wands", {| sky := "from-orange-100 to-yellow-100"; ground := "from-orange-800 to-red-900";
                     accent := "text-red-600" |}, Droplets)
      else if includes "Cups" then
        ("Cups", {| sky := "from-blue-100 to-cyan-100"; ground := "from-blue-700 to-indigo-900";
                    accent := "text-blue-600" |}, Droplets)
      else if includes "Swords" then
        ("Swords", {| sky := "from-slate-200 to-gray-300"; ground := "from-slate-600 to-gray-800";
                      accent := "text-slate-700" |}, Cloud)
      else if includes "Pentacles" then
        ("Pentacles", {| sky := "from-yellow-50 to-amber-100"; ground := "from-green-700 to-emerald-900";
                         accent := "text-green-700" |}, Leaf)
      else ("Major", defaultTheme, Star) in
    {| isMajor := major; number := ""; suit := suit; colorTheme := theme; Icon := icon |}.


(* ================================================================= *)
(** ** Types *)

Inductive AppState := Input | Shuffling | Selecting | Reading.

Definition AppState_eqb (a b : AppState) : bool :=
  match a, b with
  | Input, Input | Shuffling, Shuffling | Selecting, Selecting | Reading, Reading => true
  | _, _ => false
  end.

(** [interface CardData]; [originalIndex] is never written nor read and
    is left out.  [imageUrl = None] is the absent field. *)
Record CardData := {
  name : string;
  isReversed : bool;
  id : nat;
  imageUrl : option string
}.

(** One entry of [cardLayout]: [{ x, y, angle: rotation, z: i }]. *)
Record LayoutSlot := { x : R; y : R; angle : Q; z : nat }.

(** The eight [useState] cells of [App]. *)
Record State := {
  gameState : AppState;
  question : string;
  deck : list string;
  selectedCards : list CardData;
  reading : string;
  loadingReading : bool;
  layoutSeed : nat;
  screenWidth : Z
}.

(** What the event loop holds for later: the two [setTimeout] callbacks
    and the two kinds of [await] on the generative service, each with
    the variables its closure captured. *)
Inductive Task :=
| ShuffleTimer                                              (* handleStart, 2500 ms *)
| ReadingTimer (newSelection : list CardData) (question : string)
                                                            (* handleCardSelect, 1000 ms *)
| ImageRequest (card : CardData)                            (* generateCardImage(card.name) *)
| TextRequest (cards : list CardData) (userQuestion : string).
                                                            (* generateReading's generateContent *)

(** How an awaited call of the service ends. *)
Inductive Outcome (A : Type) :=
| Resolved (response : A)
| Rejected.
Arguments Resolved {A} response.
Arguments Rejected {A}.

(** An image response is the list of the first candidate's parts, each
    with the [data] of its [inlineData] when it has one (no candidates:
    no parts).  A text response is [response.text], possibly undefined. *)
Definition ImageResponse := list (option string).
Definition TextResponse := option string.

(* ================================================================= *)
(** ** Numbers

    A Number is a binary64 value.  [toNumber x] is the Number nearest
    to the rational [x], ties to the even significand: the value of
    the literal that reads [x], and what [a * b] returns when [x] is
    the exact product of the Numbers [a] and [b].  Magnitudes stay
    below 2^7 here, so the overflow to infinity is left out. *)

(** 2^e *)
Definition pow2 (e : Z) : Q :=
  match e with
  | Zneg p => 1 # (2 ^ p)
  | _ => inject_Z (2 ^ e)
  end.

(** The floor of log2 [x], for [x] above zero. *)
Definition floorLog2 (x : Q) : Z :=
  if Qle_bool 1 x then Z.log2 (Qfloor x) else (- Z.log2_up (Qceiling (/ x)))%Z.

(** The integer nearest to [x], the even one of two at equal distance. *)
Definition roundTiesToEven (x : Q) : Z :=
  let f := Qfloor x in
  match (x - inject_Z f ?= 1 # 2)%Q with
  | Lt => f
  | Gt => (f + 1)%Z
  | Eq => if Z.even f then f else (f + 1)%Z
  end.

(** The exponent of the unit in the last place of a significand of 53
    bits, not below that of the subnormal numbers. *)
Definition ulpExponent (x : Q) : Z := Z.max (floorLog2 (Qabs x) - 52) (-1074).

Definition toNumber (x : Q) : Q :=
  let e := ulpExponent x in Qred (inject_Z (roundTiesToEven (x / pow2 e)) * pow2 e).

(** [x] is a Number. *)
Definition isNumber (x : Q) : bool := Qeq_bool (toNumber x) x.

(* ================================================================= *)
(** ** Layout arithmetic ([cardLayout]'s callback) *)

Definition totalCards : nat := 22.
Definition angleStep : Q := (360 / inject_Z (Z.of_nat totalCards))%Q.
Definition baseAngleDeg (i : nat) : Q := (-90 + inject_Z (Z.of_nat i) * angleStep)%Q.
Definition radius (isMobile : bool) : Q := if isMobile then 115%Q else 240%Q.
(** [(Math.random() - 0.5) * (isMobile ? 4 : 8)], at the draw [u] *)
Definition randomR (isMobile : bool) (u : Q) : Q :=
  ((u - 0.5) * (if isMobile then 4 else 8))%Q.
(** [(Math.random() - 0.5) * 2], at the draw [u] *)
Definition randomAngle (u : Q) : Q := ((u - 0.5) * 2)%Q.
Definition finalRadius (isMobile : bool) (u : Q) : Q := (radius isMobile + randomR isMobile u)%Q.
Definition finalAngleRad (i : nat) (u : Q) : R :=
  (Q2R (baseAngleDeg i) * (PI / 180) + Q2R (randomAngle u) * PI / 180)%R.
Definition rotation (i : nat) (u : Q) : Q := (baseAngleDeg i + 90 + randomAngle u)%Q.

(** The slot [i], with [u1] the first and [u2] the second draw of its turn. *)
Definition layoutSlot (isMobile : bool) (i : nat) (u1 u2 : Q) : LayoutSlot :=
  {| x := (cos (finalAngleRad i u2) * Q2R (finalRadius isMobile u1))%R;
     y := (sin (finalAngleRad i u2) * Q2R (finalRadius isMobile u1))%R;
     angle := rotation i u2;
     z := i |}.

(* ================================================================= *)
(** ** The component *)

Section App.

(** The values of the successive calls of [Math.random()]. *)
Variable Math_random : nat -> Q.

(** [Array.from({ length: 22 }).map((_, i) => ...)], when [calls]
    calls of [Math.random] were made before: the slot [i] takes the
    draws [calls + 2i] and [calls + 2i + 1]. *)
Definition computeLayout (isMobile : bool) (calls : nat) : list LayoutSlot :=
  map (fun i => layoutSlot isMobile i (Math_random (calls + 2 * i))
                                      (Math_random (calls + 2 * i + 1)))
      (seq 0 totalCards).

(** *** Handlers as state transformers

    A handler runs against [st] (the state its updates apply to),
    appends what it schedules to [out] and counts its calls of
    [Math.random] in [rnd].  What a handler reads ([question],
    [selectedCards], [deck]) comes from the render it was created
    in, its argument [s]. *)
Record Run := { st : State; out : list Task; rnd : nat }.

Definition M (A : Type) : Type := Run -> A * Run.
Definition ret {A} (a : A) : M A := fun r => (a, r).
Definition bind {A B} (m : M A) (k : A -> M B) : M B :=
  fun r => let '(a, r') := m r in k a r'.
Definition skip : M unit := ret tt.

Notation "m ;; k" := (bind m (fun _ => k)) (at level 61, right associativity).
Notation "a <- m ;; k" := (bind m (fun a => k))
  (at level 61, m at next level, right associativity).

Definition update (f : State -> State) : M unit :=
  fun r => (tt, {| st := f (st r); out := out r; rnd := rnd r |}).

Definition setGameState (v : AppState) : M unit :=
  update (fun s => {| gameState := v; question := question s; deck := deck s;
                      selectedCards := selectedCards s; reading := reading s;
                      loadingReading := loadingReading s; layoutSeed := layoutSeed s;
                      screenWidth := screenWidth s |}).
Definition setQuestion (v : string) : M unit :=
  update (fun s => {| gameState := gameState s; question := v; deck := deck s;
                      selectedCards := selectedCards s; reading := reading s;
                      loadingReading := loadingReading s; layoutSeed := layoutSeed s;
                      screenWidth := screenWidth s |}).
Definition setDeck (v : list string) : M unit :=
  update (fun s => {| gameState := gameState s; question := question s; deck := v;
                      selectedCards := selectedCards s; reading := reading s;
                      loadingReading := loadingReading s; layoutSeed := layoutSeed s;
                      screenWidth := screenWidth s |}).
(** [setSelectedCards(f)]; a plain value [v] is [fun _ => v]. *)
Definition setSelectedCards (f : list CardData -> list CardData) : M unit :=
  update (fun s => {| gameState := gameState s; question := question s; deck := deck s;
                      selectedCards := f (selectedCards s); reading := reading s;
                      loadingReading := loadingReading s; layoutSeed := layoutSeed s;
                      screenWidth := screenWidth s |}).
Definition setReading (v : string) : M unit :=
  update (fun s => {| gameState := gameState s; question := question s; deck := deck s;
                      selectedCards := selectedCards s; reading := v;
                      loadingReading := loadingReading s; layoutSeed := layoutSeed s;
                      screenWidth := screenWidth s |}).
Definition setLoadingReading (v : bool) : M unit :=
  update (fun s => {| gameState := gameState s; question := question s; deck := deck s;
                      selectedCards := selectedCards s; reading := reading s;
                      loadingReading := v; layoutSeed := layoutSeed s;
                      screenWidth := screenWidth s |}).
(** [setLayoutSeed(f)] *)
Definition setLayoutSeed (f : nat -> nat) : M unit :=
  update (fun s => {| gameState := gameState s; question := question s; deck := deck s;
                      selectedCards := selectedCards s; reading := reading s;
                      loadingReading := loadingReading s; layoutSeed := f (layoutSeed s);
                      screenWidth := screenWidth s |}).
Definition setScreenWidth (v : Z) : M unit :=
  update (fun s => {| gameState := gameState s; question := question s; deck := deck s;
                      selectedCards := selectedCards s; reading := reading s;
                      loadingReading := loadingReading s; layoutSeed := layoutSeed s;
                      screenWidth := v |}).

(** [Math.random()] *)
Definition random : M Q :=
  fun r => (Math_random (rnd r), {| st := st r; out := out r; rnd := S (rnd r) |}).

(** [setTimeout(callback, delay)], and the start of an awaited request *)
Definition schedule (t : Task) : M unit :=
  fun r => (tt, {| st := st r; out := (out r ++ [t])%list; rnd := rnd r |}).

(** [cards.forEach(f)] *)
Fixpoint forEach {A} (l : list A) (f : A -> M unit) : M unit :=
  match l with
  | [] => skip
  | a :: l' => f a ;; forEach l' f
  end.

Definition isMobile (s : State) : bool := (screenWidth s <? 768)%Z.

(** *** [handleStart] *)
Definition handleStart (s : State) : M unit :=
  if negb (JsString.truthy (JsString.trim (question s))) then skip
  else
    setGameState Shuffling ;;
    setLayoutSeed (fun prev => prev + 1) ;;
    schedule ShuffleTimer.

(** The callback of [handleStart]'s timer. *)
Definition shuffleDone : M unit := setGameState Selecting.

(** *** [handleCardSelect] *)

(** [deck[Math.floor(u * deck.length)]]: the product is a Number, the
    nearest to the exact one; past the end of [deck] the element is
    [undefined]. *)
Definition drawIndex (deck : list string) (u : Q) : Z :=
  Qfloor (toNumber (u * inject_Z (Z.of_nat (List.length deck)))).
Definition drawName (deck : list string) (u : Q) : string :=
  match (if (drawIndex deck u <? 0)%Z then None
         else nth_error deck (Z.to_nat (drawIndex deck u))) with
  | Some n => n
  | None => "undefined"
  end.
(** [u > 0.8], with the Number that the literal [0.8] denotes *)
Definition drawReversed (u : Q) : bool := negb (Qle_bool u (toNumber 0.8%Q)).

Definition handleCardSelect (s : State) (index : nat) : M unit :=
  if (3 <=? List.length (selectedCards s))%nat then skip
  else
    u1 <- random ;;
    let randomCardName := drawName (deck s) u1 in
    u2 <- random ;;
    let isReversed := drawReversed u2 in
    let newCard := {| name := randomCardName; isReversed := isReversed; id := index;
                      imageUrl := None |} in
    let newSelection := (selectedCards s ++ [newCard])%list in
    setSelectedCards (fun _ => newSelection) ;;
    if (List.length newSelection =? 3)%nat
    then schedule (ReadingTimer newSelection (question s))
    else skip.

(** *** [generateCardImage]: what the awaited call makes of the
    service's answer.  The first part with [inlineData] gives the
    data URL; no such part, or a rejected call (caught), gives null. *)
Definition generateCardImage (cardName : string) (answer : Outcome ImageResponse)
  : option string :=
  match answer with
  | Resolved parts =>
      match find (fun part => match part with Some _ => true | None => false end) parts with
      | Some (Some data) => Some ("data:image/png;base64," ++ data)
      | _ => None
      end
  | Rejected => None
  end.

(** *** [generateReading], up to its awaits *)
Definition generateReading (cards : list CardData) (userQuestion : string) : M unit :=
  setLoadingReading true ;;
  setReading "" ;;
  forEach cards (fun card => schedule (ImageRequest card)) ;;
  schedule (TextRequest cards userQuestion).

(** [c => c.id === card.id ? { ...c, imageUrl } : c], with [target]
    for [card.id] *)
Definition merge (target : nat) (url : string) (c : CardData) : CardData :=
  if (id c =? target)%nat
  then {| name := name c; isReversed := isReversed c; id := id c; imageUrl := Some url |}
  else c.

(** The [forEach] callback after its await.  A data URL is never
    empty, so [if (imageUrl)] holds exactly when it is not null. *)
Definition imageDone (card : CardData) (answer : Outcome ImageResponse) : M unit :=
  match generateCardImage (name card) answer with
  | Some imageUrl => setSelectedCards (fun prev => map (merge (id card) imageUrl) prev)
  | None => skip
  end.

(** [generateReading] after its await: the rest of [try], [catch],
    [finally]. *)
Definition textDone (answer : Outcome TextResponse) : M unit :=
  match answer with
  | Resolved text =>
      setReading (match text with
                  | Some t => if JsString.truthy t then t
                              else "The spirits are silent. Please try again."
                  | None => "The spirits are silent. Please try again."
                  end)
  | Rejected =>
      setReading "An error occurred while communing with the spirits. Please check your connection and try again."
  end ;;
  setLoadingReading false.

(** The callback of [handleCardSelect]'s timer. *)
Definition readingDue (newSelection : list CardData) (question : string) : M unit :=
  setGameState Reading ;;
  generateReading newSelection question.

(** *** [resetGame] *)
Definition resetGame : M unit :=
  setGameState Input ;;
  setQuestion "" ;;
  setSelectedCards (fun _ => []) ;;
  setReading "".

(** *** The event loop *)

(** The component between two events: its state, the memoised
    [cardLayout], what the event loop holds, and the number of calls
    of [Math.random] so far. *)
Record World := {
  state : State;
  cardLayout : list LayoutSlot;
  pending : list Task;
  calls : nat
}.

(** [useMemo(..., [layoutSeed, screenWidth, isMobile])]: one of the
    dependencies differs from the previous render's. *)
Definition depsChanged (before after : State) : bool :=
  negb ((layoutSeed before =? layoutSeed after)%nat
        && (screenWidth before =? screenWidth after)%Z
        && Bool.eqb (isMobile before) (isMobile after)).

(** Run a handler on [w] with [rest] left in the event loop, then
    render: the updates are committed together, and [cardLayout] is
    computed anew, with new draws, when a dependency changed. *)
Definition exec (h : M unit) (s : State) (calls : nat) : Run :=
  snd (h {| st := s; out := []; rnd := calls |}).

Definition commit (w : World) (rest : list Task) (h : M unit) : World :=
  let r := exec h (state w) (calls w) in
  if depsChanged (state w) (st r)
  then {| state := st r;
          cardLayout := computeLayout (isMobile (st r)) (rnd r);
          pending := (rest ++ out r)%list;
          calls := rnd r + 2 * totalCards |}
  else {| state := st r; cardLayout := cardLayout w; pending := (rest ++ out r)%list;
          calls := rnd r |}.

Definition initialState : State :=
  {| gameState := Input; question := ""; deck := []; selectedCards := []; reading := "";
     loadingReading := false; layoutSeed := 0; screenWidth := 1000 |}.

(** The first render, and the effect that follows it:
    [setDeck(FULL_DECK); updateWidth()]. *)
Definition firstRender : World :=
  {| state := initialState; cardLayout := computeLayout (isMobile initialState) 0;
     pending := []; calls := 2 * totalCards |}.

Definition mount (innerWidth : Z) : World :=
  commit firstRender [] (setDeck FULL_DECK ;; setScreenWidth innerWidth).

(** How a pending task ends. *)
Inductive Completion :=
| Fired
| ImageAnswer (answer : Outcome ImageResponse)
| TextAnswer (answer : Outcome TextResponse).

Inductive Event :=
| Resize (innerWidth : Z)             (* window 'resize' *)
| Change (value : string)             (* the input's onChange *)
| Start                               (* the button's onClick, or Enter in the input *)
| Select (index : nat)                (* onClick of the slot [index] *)
| ConsultAgain                        (* onClick of the last button *)
| Complete (k : nat) (c : Completion) (* the k-th pending task ends *).

(** The continuation of a task, when it ends the way its kind can. *)
Definition continuation (t : Task) (c : Completion) : option (M unit) :=
  match t, c with
  | ShuffleTimer, Fired => Some shuffleDone
  | ReadingTimer newSelection q, Fired => Some (readingDue newSelection q)
  | ImageRequest card, ImageAnswer a => Some (imageDone card a)
  | TextRequest _ _, TextAnswer a => Some (textDone a)
  | _, _ => None
  end.

Fixpoint removeNth {A} (k : nat) (l : list A) : list A :=
  match l, k with
  | [], _ => []
  | _ :: l', O => l'
  | a :: l', S k' => a :: removeNth k' l'
  end.

(** The handler the event runs, whether or not the page offers it. *)
Definition handler (s : State) (e : Event) : M unit :=
  match e with
  | Resize innerWidth => setScreenWidth innerWidth
  | Change value => setQuestion value
  | Start => handleStart s
  | Select index => handleCardSelect s index
  | ConsultAgain => resetGame
  | Complete _ _ => skip
  end.

(** What the rendered page offers: the input and its button in
    [Input]; in [Selecting] the slots of [cardLayout] that no selected
    card has taken; the last button in [Reading] once
    [loadingReading] is off. *)
Definition offered (w : World) (e : Event) : bool :=
  match e with
  | Resize _ => true
  | Change _ | Start => AppState_eqb (gameState (state w)) Input
  | Select index =>
      AppState_eqb (gameState (state w)) Selecting
      && (index <? List.length (cardLayout w))%nat
      && negb (existsb (fun c => (id c =? index)%nat) (selectedCards (state w)))
  | ConsultAgain =>
      AppState_eqb (gameState (state w)) Reading && negb (loadingReading (state w))
  | Complete _ _ => false
  end.

(** One turn of the event loop; [None] when the event cannot occur. *)
Definition step (w : World) (e : Event) : option World :=
  match e with
  | Complete k c =>
      match nth_error (pending w) k with
      | Some t =>
          match continuation t c with
          | Some h => Some (commit w (removeNth k (pending w)) h)
          | None => None
          end
      | None => None
      end
  | _ => if offered w e then Some (commit w (pending w) (handler (state w) e)) else None
  end.

Fixpoint run (w : World) (es : list Event) : option World :=
  match es with
  | [] => Some w
  | e :: es' => match step w e with
                | Some w' => run w' es'
                | None => None
                end
  end.

(** The worlds the program can be in. *)
Inductive reachable : World -> Prop :=
| reachable_mount : forall innerWidth, reachable (mount innerWidth)
| reachable_step : forall w e w', reachable w -> step w e = Some w' -> reachable w'.

End App.

(* ================================================================= *)
(** ** Definitions used by the statements *)

(** [Math.random()] returns a number in [0, 1). *)
Definition unitDraws (Math_random : nat -> Q) : Prop :=
  forall n, (0 <= Math_random n < 1)%Q.

(** What [Math.random()] returns is a Number. *)
Definition numberDraws (Math_random : nat -> Q) : Prop :=
  forall n, isNumber (Math_random n) = true.

Definition isShuffleTimer (t : Task) : bool :=
  match t with ShuffleTimer => true | _ => false end.
Definition isReadingTimer (t : Task) : bool :=
  match t with ReadingTimer _ _ => true | _ => false end.
Definition isTextRequest (t : Task) : bool :=
  match t with TextRequest _ _ => true | _ => false end.

Definition count (p : Task -> bool) (l : list Task) : nat := List.length (filter p l).

(** What holds of the state and of the pending tasks between two
    events: the deck is loaded; at most three cards are drawn, from
    distinct slots, and none outside [Selecting] and [Reading]; the
    shuffle timer is pending exactly in [Shuffling], the reading timer
    exactly in [Selecting] with three cards, the text request exactly
    in [Reading] while [loadingReading] is on. *)
Record Good (s : State) (p : list Task) : Prop := {
  good_deck : deck s = FULL_DECK;
  good_cards : (List.length (selectedCards s) <= 3)%nat;
  good_nodup : NoDup (map id (selectedCards s));
  good_input : gameState s = Input -> selectedCards s = [];
  good_shuffling : gameState s = Shuffling -> selectedCards s = [];
  good_reading : gameState s = Reading -> List.length (selectedCards s) = 3%nat;
  good_shuffleTimer :
    count isShuffleTimer p = if AppState_eqb (gameState s) Shuffling then 1%nat else 0%nat;
  good_readingTimer :
    count isReadingTimer p =
    if AppState_eqb (gameState s) Selecting && (List.length (selectedCards s) =? 3)%nat
    then 1%nat else 0%nat;
  good_textRequest :
    count isTextRequest p =
    if AppState_eqb (gameState s) Reading && loadingReading s then 1%nat else 0%nat;
  good_timerCards :
    forall cs q, In (ReadingTimer cs q) p -> NoDup (map id cs)
}.

(** The state after the task of [j] ended the way [j] says (the state
    alone: no continuation calls [Math.random]). *)
Definition settle (s : State) (j : Task * Completion) : State :=
  match continuation (fst j) (snd j) with
  | Some h => st (exec h s 0)
  | None => s
  end.

(** What the continuation of a task hands to the event loop: the
    reading timer starts the four requests, the others nothing. *)
Definition spawned (t : Task) (c : Completion) : list Task :=
  match t, c with
  | ReadingTimer newSelection q, Fired =>
      (map ImageRequest newSelection ++ [TextRequest newSelection q])%list
  | _, _ => []
  end.

(** The four requests of one reading with their answers: the artwork
    of each card, then the narrative. *)
Definition jobs (cs : list CardData) (q : string) (answers : list (Outcome ImageResponse))
           (ta : Outcome TextResponse) : list (Task * Completion) :=
  (combine (map ImageRequest cs) (map ImageAnswer answers)
   ++ [(TextRequest cs q, TextAnswer ta)])%list.

(** The slot an artwork job writes to; the other jobs write no card. *)
Definition jobKey (j : Task * Completion) : option nat :=
  match fst j with
  | ImageRequest card => Some (id card)
  | _ => None
  end.

(** The tasks that a run of task endings ends, each with the way it
    ended, in the order of the run; [None] when an event of [es] is
    not the end of a task pending at its turn. *)
Fixpoint completions (Math_random : nat -> Q) (w : World) (es : list Event)
  : option (list (Task * Completion)) :=
  match es with
  | [] => Some []
  | Complete k c :: es' =>
      match nth_error (pending w) k, step Math_random w (Complete k c) with
      | Some t, Some w' => option_map (cons (t, c)) (completions Math_random w' es')
      | _, _ => None
      end
  | _ :: _ => None
  end.

(** The events after which a render computes [cardLayout] anew. *)
Definition redraws (w : World) (e : Event) : bool :=
  match e with
  | Resize innerWidth => negb (innerWidth =? screenWidth (state w))%Z
  | Start => JsString.truthy (JsString.trim (question (state w)))
  | _ => false
  end.

(** The world after [es], or [w] itself when they cannot all occur. *)
Definition runFrom (Math_random : nat -> Q) (w : World) (es : list Event) : World :=
  match run Math_random w es with
  | Some w' => w'
  | None => w
  end.

(** The numerals of the ordinals 0 to 21, as the cards print them. *)
Definition NUMERALS : list string :=
  [ "0"; "I"; "II"; "III"; "IV"; "V"; "VI"; "VII"; "VIII"; "IX"; "X"; "XI"; "XII"; "XIII";
    "XIV"; "XV"; "XVI"; "XVII"; "XVIII"; "XIX"; "XX"; "XXI" ].

(** The suit names [getCardMetadata] answers with. *)
Definition SUIT_NAMES : list string := [ "Wands"; "Cups"; "Swords"; "Pentacles" ].

Definition inb (x : string) (l : list string) : bool := existsb (String.eqb x) l.

(** The metadata of the [k]-th major card is as expected. *)
Definition majorOk (k : nat) (name : string) : bool :=
  let m := getCardMetadata name in
  isMajor m && String.eqb (number m) (nth k NUMERALS "") && JsString.truthy (number m)
  && String.eqb (suit m) "Major".

(** The metadata of [rank of s] is as expected. *)
Definition minorOk (s rank : string) : bool :=
  let m := getCardMetadata (rank ++ " of " ++ s) in
  negb (isMajor m) && String.eqb (number m) "" && String.eqb (suit m) (JsString.firstWord s)
  && inb (suit m) SUIT_NAMES && negb (inb (rank ++ " of " ++ s) MAJOR_ARCANA).

(** *** Sample runs *)

(** A stream of draws: 0 for the first 88 calls, then 0.5, except
    11/64 at the call 138. *)
Definition sampleDraws (n : nat) : Q :=
  if (n <? 88)%nat then 0%Q else if (n =? 138)%nat then (11 # 64)%Q else 0.5%Q.

(** A page 1000 wide; a question, the shuffle, three cards, the
    reading, its narrative. *)
Definition sampleMount : World := mount sampleDraws 1000.

Definition toSelecting : list Event :=
  [ Change "我的感情运势如何？"; Start; Complete 0 Fired ].

Definition toThreeCards : list Event :=
  (toSelecting ++ [ Select 0; Select 1; Select 2 ])%list.

Definition toReading : list Event :=
  (toThreeCards ++ [ Complete 0 Fired ])%list.

Definition sessionA : list Event :=
  (toReading ++ [ Complete 3 (TextAnswer (Resolved (Some "reading of A"))) ])%list.

(** Then a second session up to its first card, while the three
    artwork requests of the first are still in flight. *)
Definition sessionB : list Event :=
  (sessionA ++ [ ConsultAgain; Change "again"; Start; Complete 3 Fired; Select 0 ])%list.

(** The three cards the sample draws give the first session, and the
    card they give the second session at the slot 0. *)
Definition fourOfCups (slot : nat) : CardData :=
  {| name := "Four of Cups (圣杯)"; isReversed := false; id := slot; imageUrl := None |}.

Definition sampleCards : list CardData := [ fourOfCups 0; fourOfCups 1; fourOfCups 2 ].

Definition death : CardData :=
  {| name := "Death (死神)"; isReversed := false; id := 0; imageUrl := None |}.

(** The artwork of the first session's card at the slot 0 arrives. *)
Definition lateArtwork : Event := Complete 0 (ImageAnswer (Resolved [Some "QUJD"])).

(** The second session up to its reading: its three artwork requests
    and its narrative request are pending behind the three artwork
    requests of the first session. *)
Definition sessionB3 : list Event :=
  (sessionB ++ [ Select 1; Select 2; Complete 3 Fired ])%list.

(** The request of the first session for the slot 0 and the four
    requests of the second, each with its answer. *)
Definition staleJob : Task * Completion :=
  (ImageRequest (fourOfCups 0), ImageAnswer (Resolved [Some "QUJD"])).
Definition deathJob : Task * Completion :=
  (ImageRequest death, ImageAnswer (Resolved [Some "REVG"])).
Definition cupsJob (slot : nat) : Task * Completion :=
  (ImageRequest (fourOfCups slot), ImageAnswer (Resolved [Some "R0hJ"])).
Definition narrativeJob : Task * Completion :=
  (TextRequest [ death; fourOfCups 1; fourOfCups 2 ] "again",
   TextAnswer (Resolved (Some "reading of B"))).

(** Two orders in which the four requests of the second session end,
    the request of the first session ending second in both. *)
Definition orderOne : list Event :=
  [ Complete 3 (snd deathJob); Complete 0 (snd staleJob); Complete 2 (snd (cupsJob 1));
    Complete 2 (snd (cupsJob 2)); Complete 2 (snd narrativeJob) ].
Definition orderTwo : list Event :=
  [ Complete 4 (snd (cupsJob 1)); Complete 0 (snd staleJob); Complete 2 (snd deathJob);
    Complete 2 (snd (cupsJob 2)); Complete 2 (snd narrativeJob) ].

(** *** Numbers of the Standard Library's IEEE 754 *)

Definition binary64 (negative : bool) (significand : positive) (exponent : Z)
  : SpecFloat.spec_float :=
  SpecFloat.S754_finite negative significand exponent.

(** The value of a finite number. *)
Definition ofSpecFloat (f : SpecFloat.spec_float) : option Q :=
  match f with
  | SpecFloat.S754_zero _ => Some 0%Q
  | SpecFloat.S754_finite s m e =>
      Some (Qred ((if s then -1 else 1) * inject_Z (Zpos m) * pow2 e))
  | _ => None
  end.

(** [a] and [b] are Numbers and the product of binary64 is [toNumber]
    of the exact one. *)
Definition productAgrees (a b : SpecFloat.spec_float) : bool :=
  match ofSpecFloat a, ofSpecFloat b, ofSpecFloat (SpecFloat.SFmul 53 1024 a b) with
  | Some x, Some y, Some p => isNumber x && isNumber y && Qeq_bool p (toNumber (x * y))
  | _, _, _ => false
  end.

(** 288692283805801 / 2^50, the largest Number below 1, the Number
    [0.8], 1/2, 11/64, the least Number above zero, the Number nearest
    to 1/3, two Numbers whose product with 78 lies half way between
    two Numbers, a Number near 2^-1022, and 78. *)
Definition sampleNumbers : list SpecFloat.spec_float :=
  [ binary64 false 4619076540892816 (-54); binary64 false 9007199254740991 (-53);
    binary64 false 7205759403792794 (-53); binary64 false 4503599627370496 (-53);
    binary64 false 6192449487634432 (-55); binary64 false 1 (-1074);
    binary64 false 6004799503160661 (-54); binary64 false 9007199254740960 (-53);
    binary64 false 9007199254740896 (-53); binary64 false 4503599627370497 (-1074);
    binary64 false 5488762045857792 (-46) ].

(** *** The numerals of [toRoman] *)




(** *** The placeholder of a deck entry *)

(** The 14 entries of a suit. *)
Definition suitCards (suit : string) : list string :=
  map (fun rank => rank ++ " of " ++ suit) RANKS.

(** The icon by the entry itself: by its exact name when it is a major
    one, by the suit it belongs to otherwise. *)
Definition deckIcon (name : string) : IconName :=
  if String.eqb name "The Sun (太阳)" then Sun
  else if String.eqb name "The Moon (月亮)" then Moon
  else if String.eqb name "The Star (星星)" then Star
  else if inb name [ "The Devil (恶魔)"; "The Tower (高塔)" ] then Flame
  else if inb name [ "The Fool (愚者)"; "The World (世界)" ] then Crown
  else if inb name MAJOR_ARCANA then Shield
  else if inb name (suitCards "Swords (宝剑)") then Cloud
  else if inb name (suitCards "Pentacles (星币)") then Leaf
  else Droplets.

(** *** What the page shows *)

(** The slots the page renders:
    [gameState === 'selecting' && ... cardLayout.map((layout, i) =>
    isSelected ? null : ...)]. *)
Definition renderedSlots (w : World) : list nat :=
  if AppState_eqb (gameState (state w)) Selecting
  then filter (fun i => negb (existsb (fun c => (id c =? i)%nat) (selectedCards (state w))))
              (seq 0 (List.length (cardLayout w)))
  else [].

(** What a card is apart from its image. *)
Definition face (c : CardData) : string * bool * nat := (name c, isReversed c, id c).

(** *** The two names a card is shown with *)

(** [s.split(ch)[0]]: the text before the first [ch]. *)
Fixpoint beforeChar (ch : ascii) (s : string) : string :=
  match s with
  | EmptyString => EmptyString
  | String c s' => if Ascii.eqb c ch then EmptyString else String c (beforeChar ch s')
  end.

Fixpoint dropChars (n : nat) (s : string) : string :=
  match n, s with
  | S n', String _ s' => dropChars n' s'
  | _, _ => s
  end.

(** [s.replace(pat, rep)] with a string for pattern: the first
    occurrence of [pat] is replaced. *)
Fixpoint replaceFirst (pat rep s : string) : string :=
  if prefix pat s then rep ++ dropChars (String.length pat) s
  else match s with
       | EmptyString => EmptyString
       | String c s' => String c (replaceFirst pat rep s')
       end.

(** The group of [/\((.*?)\)/] when the opening parenthesis has just
    been read: the text up to the next closing one, unless a line
    terminator (LF, CR, U+2028, U+2029), which the dot does not match,
    or the end comes first. *)
Fixpoint upToClose (s : string) : option string :=
  match s with
  | EmptyString => None
  | String c s1 =>
      if Ascii.eqb c ")" then Some EmptyString
      else if (nat_of_ascii c =? 10)%nat || (nat_of_ascii c =? 13)%nat then None
      else match s1 with
           | String c2 (String c3 _) =>
               if (nat_of_ascii c =? 226)%nat && (nat_of_ascii c2 =? 128)%nat
                  && ((nat_of_ascii c3 =? 168)%nat || (nat_of_ascii c3 =? 169)%nat)
               then None
               else option_map (String c) (upToClose s1)
           | _ => option_map (String c) (upToClose s1)
           end
  end.

(** [s.match(/\((.*?)\)/)?.[1]]: the group at the first opening
    parenthesis from which the pattern matches. *)
Fixpoint firstGroup (s : string) : option string :=
  match s with
  | EmptyString => None
  | String c s1 =>
      if Ascii.eqb c "("
      then match upToClose s1 with
           | Some g => Some g
           | None => firstGroup s1
           end
      else firstGroup s1
  end.

(** [card.name.split('(')[0].replace('The ', '')] *)
Definition cleanName (name : string) : string :=
  replaceFirst "The " "" (beforeChar "(" name).

(** [card.name.match(/\((.*?)\)/)?.[1] || ""] *)
Definition chineseName (name : string) : string :=
  match firstGroup name with
  | Some g => g
  | None => ""
  end.

Definition hasChar (ch : ascii) (s : string) : bool :=
  existsb (Ascii.eqb ch) (list_ascii_of_string s).

(** *** Proof steps *)

(** Unfold a handler down to the record it leaves. *)
Ltac run_handler :=
  cbv [exec handler handleStart shuffleDone handleCardSelect readingDue generateReading
       imageDone textDone resetGame setGameState setQuestion setDeck setSelectedCards
       setReading setLoadingReading setLayoutSeed setScreenWidth update schedule random
       ret bind skip];
  cbn [st out rnd snd fst].

(** Project the fields of a state given as a record. *)
Ltac fields :=
  cbn [gameState question deck selectedCards reading loadingReading layoutSeed screenWidth].

(* ================================================================= *)
(** ** Proofs *)

(** *** Lists, counts and merges *)

Lemma AppState_eqb_eq (a b : AppState) : AppState_eqb a b = true <-> a = b.
Proof. destruct a, b; simpl; split; congruence. Qed.

Lemma count_app (p : Task -> bool) (l1 l2 : list Task) :
  count p (l1 ++ l2) = (count p l1 + count p l2)%nat.
Proof. unfold count. rewrite filter_app, length_app. reflexivity. Qed.

Lemma count_removeNth (p : Task -> bool) (k : nat) (l : list Task) (t : Task) :
  nth_error l k = Some t ->
  (count p (removeNth k l) + (if p t then 1 else 0))%nat = count p l.
Proof.
  revert k. induction l as [|a l IH]; intros [|k] H; simpl in H; try discriminate.
  - injection H as ->. unfold count. simpl. destruct (p t); simpl; lia.
  - specialize (IH k H). unfold count in *. simpl. destruct (p a); simpl; lia.
Qed.

Lemma count_images (p : Task -> bool) (l : list CardData) :
  (forall c, p (ImageRequest c) = false) -> count p (map ImageRequest l) = 0%nat.
Proof.
  intros Hp. unfold count. induction l as [|c l IH]; simpl; [reflexivity|].
  rewrite Hp. exact IH.
Qed.

Lemma count_zero_In (p : Task -> bool) (l : list Task) (t : Task) :
  count p l = 0%nat -> In t l -> p t = false.
Proof.
  unfold count. induction l as [|a l IH]; simpl; [tauto|].
  intros H [->|Hin].
  - destruct (p t); [discriminate|reflexivity].
  - apply IH; [|exact Hin]. destruct (p a); [discriminate|exact H].
Qed.

Lemma In_removeNth (k : nat) (l : list Task) (t : Task) :
  In t (removeNth k l) -> In t l.
Proof.
  revert k. induction l as [|a l IH]; intros [|k] H; simpl in *; auto.
  destruct H as [H|H]; eauto.
Qed.

Lemma merge_id (target : nat) (url : string) (c : CardData) : id (merge target url c) = id c.
Proof. unfold merge. destruct (id c =? target)%nat; reflexivity. Qed.

Lemma merge_other (target : nat) (url : string) (c : CardData) :
  id c <> target -> merge target url c = c.
Proof. intros H. unfold merge. apply Nat.eqb_neq in H. rewrite H. reflexivity. Qed.

Lemma merge_comm (a b : nat) (u v : string) (c : CardData) :
  a <> b -> merge a u (merge b v c) = merge b v (merge a u c).
Proof.
  intros Hab. unfold merge.
  repeat (match goal with
          | |- context [(?x =? ?y)%nat] => destruct (Nat.eqb_spec x y)
          end; cbn [id] in *); congruence.
Qed.

Lemma map_id_merge (target : nat) (url : string) (l : list CardData) :
  map id (map (merge target url) l) = map id l.
Proof. rewrite map_map. apply map_ext. intros c. apply merge_id. Qed.

Lemma map_merge_absent (target : nat) (url : string) (l : list CardData) :
  ~ In target (map id l) -> map (merge target url) l = l.
Proof.
  induction l as [|c l IH]; simpl; [reflexivity|].
  intros H. rewrite merge_other by tauto. rewrite IH by tauto. reflexivity.
Qed.

Lemma existsb_id_In (index : nat) (l : list CardData) :
  existsb (fun c => (id c =? index)%nat) l = false -> ~ In index (map id l).
Proof.
  induction l as [|c l IH]; simpl; [tauto|].
  intros H. apply orb_false_iff in H as [H1 H2]. apply Nat.eqb_neq in H1.
  intros [E|E]; [congruence|]. exact (IH H2 E).
Qed.

Lemma NoDup_snoc (l : list nat) (a : nat) : NoDup l -> ~ In a l -> NoDup (l ++ [a]).
Proof.
  intros Hl Ha. induction Hl as [|b l Hb Hl IH]; simpl.
  - constructor; [tauto | constructor].
  - constructor.
    + rewrite in_app_iff. simpl. intros [H|[H|[]]]; [tauto|]. subst. apply Ha. now left.
    + apply IH. intros H. apply Ha. now right.
Qed.

(** *** What a commit leaves *)

Lemma forEach_schedule (cards : list CardData) (r : Run) :
  forEach cards (fun card => schedule (ImageRequest card)) r
  = (tt, {| st := st r; out := (out r ++ map ImageRequest cards)%list; rnd := rnd r |}).
Proof.
  revert r. induction cards as [|c cards IH]; intros r.
  - simpl. unfold skip, ret. rewrite app_nil_r. destruct r; reflexivity.
  - cbn [forEach]. unfold bind at 1. unfold schedule at 1. rewrite IH. cbn [st out rnd].
    rewrite <- app_assoc. reflexivity.
Qed.

Lemma depsChanged_same (s s' : State) :
  layoutSeed s = layoutSeed s' -> screenWidth s = screenWidth s' -> depsChanged s s' = false.
Proof.
  intros Hl Hw. unfold depsChanged, isMobile. rewrite Hl, Hw.
  rewrite Nat.eqb_refl, Z.eqb_refl, eqb_reflx. reflexivity.
Qed.

Section Commit.

Variable Math_random : nat -> Q.

Lemma commit_state (w : World) (rest : list Task) (h : M unit) :
  state (commit Math_random w rest h) = st (exec h (state w) (calls w)).
Proof. unfold commit. destruct depsChanged; reflexivity. Qed.

Lemma commit_pending (w : World) (rest : list Task) (h : M unit) :
  pending (commit Math_random w rest h) = (rest ++ out (exec h (state w) (calls w)))%list.
Proof. unfold commit. destruct depsChanged; reflexivity. Qed.

Lemma commit_same_deps (w : World) (rest : list Task) (h : M unit) :
  layoutSeed (st (exec h (state w) (calls w))) = layoutSeed (state w) ->
  screenWidth (st (exec h (state w) (calls w))) = screenWidth (state w) ->
  commit Math_random w rest h =
  {| state := st (exec h (state w) (calls w)); cardLayout := cardLayout w;
     pending := (rest ++ out (exec h (state w) (calls w)))%list;
     calls := rnd (exec h (state w) (calls w)) |}.
Proof.
  intros Hl Hw. unfold commit. rewrite depsChanged_same by congruence. reflexivity.
Qed.

Lemma commit_skip (w : World) : commit Math_random w (pending w) skip = w.
Proof.
  rewrite commit_same_deps by reflexivity. run_handler. rewrite app_nil_r.
  destruct w; reflexivity.
Qed.

Lemma computeLayout_length (isMobile : bool) (calls : nat) :
  List.length (computeLayout Math_random isMobile calls) = totalCards.
Proof. unfold computeLayout. rewrite length_map, length_seq. reflexivity. Qed.

End Commit.

(** *** The invariant *)

Section Invariant.

Variable Math_random : nat -> Q.

Lemma mount_Good (innerWidth : Z) :
  Good (state (mount Math_random innerWidth)) (pending (mount Math_random innerWidth)).
Proof.
  unfold mount. rewrite commit_state, commit_pending. run_handler.
  constructor; fields; cbn; try reflexivity; try lia; try discriminate; try tauto.
  constructor.
Qed.

Lemma step_Good (w : World) (e : Event) (w' : World) :
  Good (state w) (pending w) -> step Math_random w e = Some w' ->
  Good (state w') (pending w').
Proof.
  intros G H. destruct e; unfold step in H.
  - (* Resize *)
    destruct (offered w (Resize innerWidth)); [|discriminate]. injection H as <-.
    rewrite commit_state, commit_pending. run_handler. rewrite app_nil_r.
    destruct G. constructor; fields; assumption.
  - (* Change *)
    destruct (offered w (Change value)); [|discriminate]. injection H as <-.
    rewrite commit_state, commit_pending. run_handler. rewrite app_nil_r.
    destruct G. constructor; fields; assumption.
  - (* Start *)
    destruct (offered w Start) eqn:Ho; [|discriminate]. injection H as <-.
    cbn [offered] in Ho. apply AppState_eqb_eq in Ho.
    rewrite commit_state, commit_pending. run_handler.
    destruct (negb _); cbn [st out].
    + rewrite app_nil_r. exact G.
    + destruct G as [Gd Gc Gn Gi Gs Gr Gst Grt Gtr Gtc]. rewrite Ho in *.
      specialize (Gi eq_refl). cbn [AppState_eqb andb] in *.
      constructor; fields; rewrite ?count_app, ?Gst, ?Grt, ?Gtr; cbn [AppState_eqb andb];
        try reflexivity; try assumption; try discriminate; auto.
      intros cs q Hin. apply in_app_or in Hin. destruct Hin as [Hin|[Hin|[]]]; eauto.
      discriminate.
  - (* Select *)
    destruct (offered w (Select index)) eqn:Ho; [|discriminate]. injection H as <-.
    cbn [offered] in Ho. apply andb_true_iff in Ho as [Ho Hfree].
    apply andb_true_iff in Ho as [Ho Hlt]. apply AppState_eqb_eq in Ho.
    apply negb_true_iff in Hfree. apply existsb_id_In in Hfree.
    rewrite commit_state, commit_pending. run_handler.
    destruct (Nat.leb_spec 3 (List.length (selectedCards (state w)))) as [Hfull|Hroom];
      cbn [st out snd].
    + rewrite app_nil_r. exact G.
    + destruct G as [Gd Gc Gn Gi Gs Gr Gst Grt Gtr Gtc]. rewrite Ho in *.
      cbn [AppState_eqb andb] in *.
      assert (E : (List.length (selectedCards (state w)) =? 3)%nat = false)
        by (apply Nat.eqb_neq; lia).
      rewrite E in Grt.
      assert (Hn : NoDup (map id (selectedCards (state w) ++
                    [{| name := drawName (deck (state w)) (Math_random (calls w));
                        isReversed := drawReversed (Math_random (S (calls w)));
                        id := index; imageUrl := None |}]))).
      { rewrite map_app. apply NoDup_snoc; assumption. }
      rewrite length_app. cbn [List.length].
      destruct (Nat.eqb_spec (List.length (selectedCards (state w)) + 1) 3) as [E3|N3];
        cbn [st out snd];
        constructor; fields; rewrite ?count_app, ?Gst, ?Grt, ?Gtr, ?length_app, ?app_nil_r;
          cbn [AppState_eqb andb List.length count filter isShuffleTimer isReadingTimer
               isTextRequest Nat.add];
          try discriminate; try assumption; try lia; try reflexivity.
      * rewrite E3. reflexivity.
      * intros cs q Hin. apply in_app_or in Hin. destruct Hin as [Hin|[Hin|[]]]; eauto.
        injection Hin as <- _. assumption.
      * apply Nat.eqb_neq in N3. rewrite N3. reflexivity.
  - (* ConsultAgain *)
    destruct (offered w ConsultAgain) eqn:Ho; [|discriminate]. injection H as <-.
    cbn [offered] in Ho. apply andb_true_iff in Ho as [Ho Hload].
    apply AppState_eqb_eq in Ho. apply negb_true_iff in Hload.
    rewrite commit_state, commit_pending. run_handler. rewrite app_nil_r.
    destruct G as [Gd Gc Gn Gi Gs Gr Gst Grt Gtr Gtc]. rewrite Ho, ?Hload in *.
    cbn [AppState_eqb andb] in *.
    constructor; fields; rewrite ?Gst, ?Grt, ?Gtr; cbn [AppState_eqb andb List.length map];
      try discriminate; try assumption; try reflexivity; try lia; auto.
    constructor.
  - (* Complete *)
    destruct (nth_error (pending w) k) as [t|] eqn:Hk; [|discriminate].
    destruct (continuation t c) as [h|] eqn:Hc; [|discriminate]. injection H as <-.
    rewrite commit_state, commit_pending.
    pose proof (count_removeNth isShuffleTimer k _ _ Hk) as Cst.
    pose proof (count_removeNth isReadingTimer k _ _ Hk) as Crt.
    pose proof (count_removeNth isTextRequest k _ _ Hk) as Ctr.
    assert (Hin : forall cs q, In (ReadingTimer cs q) (removeNth k (pending w)) ->
                               NoDup (map id cs)).
    { intros cs q Hin. apply In_removeNth in Hin. destruct G. eauto. }
    destruct G as [Gd Gc Gn Gi Gs Gr Gst Grt Gtr Gtc].
    destruct t, c; try discriminate; cbn [continuation] in Hc; injection Hc as <-;
      cbn [isShuffleTimer isReadingTimer isTextRequest] in Cst, Crt, Ctr.
    + (* the shuffle timer fires *)
      run_handler. rewrite app_nil_r.
      destruct (gameState (state w)) eqn:Eg; cbn [AppState_eqb andb] in *; try lia.
      specialize (Gs eq_refl).
      constructor; fields; cbn [AppState_eqb andb]; try discriminate; try assumption;
        try lia.
      rewrite Gs. cbn. lia.
    + (* the reading timer fires *)
      run_handler. rewrite forEach_schedule. cbn [st out rnd snd fst].
      destruct (gameState (state w)) eqn:Eg; cbn [AppState_eqb andb] in *; try lia.
      destruct (Nat.eqb_spec (List.length (selectedCards (state w))) 3) as [E3|N3]; [|lia].
      constructor; fields; rewrite ?count_app, ?count_images by reflexivity;
        cbn [AppState_eqb andb count filter List.length isShuffleTimer isReadingTimer
             isTextRequest];
        try discriminate; try assumption; try lia.
      intros cs q Hi. apply in_app_or in Hi. destruct Hi as [Hi|Hi]; [eauto|].
      cbn [app] in Hi. apply in_app_or in Hi. destruct Hi as [Hi|[Hi|[]]]; [|discriminate].
      apply in_map_iff in Hi. destruct Hi as [c0 [Hi _]]. discriminate.
    + (* an image request ends *)
      run_handler. destruct (generateCardImage (name card) answer) as [url|];
        cbn [st out rnd snd fst]; rewrite app_nil_r.
      * constructor; fields; rewrite ?map_id_merge, ?length_map;
          try assumption; try lia.
        -- intros Hg. rewrite (Gi Hg). reflexivity.
        -- intros Hg. rewrite (Gs Hg). reflexivity.
      * constructor; fields; try assumption; try lia.
    + (* the text request ends *)
      assert (E : st (exec (textDone answer) (state w) (calls w)) =
                  {| gameState := gameState (state w); question := question (state w);
                     deck := deck (state w); selectedCards := selectedCards (state w);
                     reading := reading (st (exec (textDone answer) (state w) (calls w)));
                     loadingReading := false; layoutSeed := layoutSeed (state w);
                     screenWidth := screenWidth (state w) |}
                  /\ out (exec (textDone answer) (state w) (calls w)) = []).
      { destruct answer; split; reflexivity. }
      destruct E as [-> ->]. rewrite app_nil_r.
      destruct (gameState (state w)) eqn:Eg; cbn [AppState_eqb andb] in *;
        constructor; fields; cbn [AppState_eqb andb]; rewrite ?andb_false_r;
        try discriminate; try assumption; try lia.
      destruct (loadingReading (state w)); lia.
Qed.

Lemma reachable_Good (w : World) :
  reachable Math_random w -> Good (state w) (pending w).
Proof.
  induction 1 as [innerWidth|w e w' _ IH Hstep].
  - apply mount_Good.
  - exact (step_Good w e w' IH Hstep).
Qed.

Lemma run_reachable (es : list Event) (w w' : World) :
  reachable Math_random w -> run Math_random w es = Some w' -> reachable Math_random w'.
Proof.
  revert w. induction es as [|e es IH]; intros w Hw H; simpl in H.
  - injection H as <-. exact Hw.
  - destruct (step Math_random w e) as [w1|] eqn:E; [|discriminate].
    apply (IH w1); [|exact H]. exact (reachable_step Math_random w e w1 Hw E).
Qed.

(** The layout always has its 22 slots: there is no empty layout. *)
Lemma reachable_layout_length (w : World) :
  reachable Math_random w -> List.length (cardLayout w) = totalCards.
Proof.
  assert (Hc : forall v rest h, List.length (cardLayout v) = totalCards ->
                                List.length (cardLayout (commit Math_random v rest h))
                                = totalCards).
  { intros v rest h Hv. unfold commit. destruct depsChanged; cbn [cardLayout];
      [apply computeLayout_length | exact Hv]. }
  induction 1 as [innerWidth|w e w' _ IH Hstep].
  - apply Hc. apply computeLayout_length.
  - unfold step in Hstep. destruct e;
      try (destruct (offered w _); [injection Hstep as <-; apply Hc; exact IH | discriminate]).
    destruct (nth_error (pending w) k); [|discriminate].
    destruct (continuation t c); [|discriminate].
    injection Hstep as <-. apply Hc. exact IH.
Qed.

Lemma runFrom_reachable (es : list Event) (w : World) :
  reachable Math_random w -> reachable Math_random (runFrom Math_random w es).
Proof.
  intros Hw. unfold runFrom. destruct (run Math_random w es) as [w'|] eqn:E.
  - exact (run_reachable es w w' Hw E).
  - exact Hw.
Qed.

End Invariant.

(** *** The continuations *)

Lemma settle_shuffleTimer (s : State) :
  settle s (ShuffleTimer, Fired) =
  {| gameState := Selecting; question := question s; deck := deck s;
     selectedCards := selectedCards s; reading := reading s;
     loadingReading := loadingReading s; layoutSeed := layoutSeed s;
     screenWidth := screenWidth s |}.
Proof. reflexivity. Qed.

Lemma settle_readingTimer (s : State) (cs : list CardData) (q : string) :
  settle s (ReadingTimer cs q, Fired) =
  {| gameState := Reading; question := question s; deck := deck s;
     selectedCards := selectedCards s; reading := "";
     loadingReading := true; layoutSeed := layoutSeed s;
     screenWidth := screenWidth s |}.
Proof.
  unfold settle. cbn [fst snd continuation]. run_handler.
  rewrite forEach_schedule. reflexivity.
Qed.

Lemma settle_image (s : State) (card : CardData) (answer : Outcome ImageResponse) :
  settle s (ImageRequest card, ImageAnswer answer) =
  match generateCardImage (name card) answer with
  | Some url =>
      {| gameState := gameState s; question := question s; deck := deck s;
         selectedCards := map (merge (id card) url) (selectedCards s); reading := reading s;
         loadingReading := loadingReading s; layoutSeed := layoutSeed s;
         screenWidth := screenWidth s |}
  | None => s
  end.
Proof.
  unfold settle. cbn [fst snd continuation]. run_handler.
  destruct (generateCardImage (name card) answer); reflexivity.
Qed.

Lemma settle_text (s : State) (cs : list CardData) (q : string) (answer : Outcome TextResponse) :
  settle s (TextRequest cs q, TextAnswer answer) =
  {| gameState := gameState s; question := question s; deck := deck s;
     selectedCards := selectedCards s;
     reading :=
       match answer with
       | Resolved (Some t) =>
           if JsString.truthy t then t else "The spirits are silent. Please try again."
       | Resolved None => "The spirits are silent. Please try again."
       | Rejected =>
           "An error occurred while communing with the spirits. Please check your connection and try again."
       end;
     loadingReading := false; layoutSeed := layoutSeed s;
     screenWidth := screenWidth s |}.
Proof. destruct answer as [[t|]|]; reflexivity. Qed.

Lemma continuation_exec (t : Task) (c : Completion) (h : M unit) (s : State) (n : nat) :
  continuation t c = Some h ->
  exec h s n = {| st := settle s (t, c); out := spawned t c; rnd := n |}.
Proof.
  intros H. unfold settle. cbn [fst snd]. rewrite H.
  destruct t, c; try discriminate; cbn [continuation] in H; injection H as <-;
    cbn [spawned].
  - reflexivity.
  - run_handler. rewrite !forEach_schedule. reflexivity.
  - run_handler. destruct (generateCardImage (name card) answer); reflexivity.
  - destruct answer; reflexivity.
Qed.

Lemma settle_deps (s : State) (j : Task * Completion) :
  layoutSeed (settle s j) = layoutSeed s /\ screenWidth (settle s j) = screenWidth s
  /\ deck (settle s j) = deck s /\ question (settle s j) = question s.
Proof.
  destruct j as [t c].
  destruct t, c; try (unfold settle; cbn; tauto).
  - rewrite settle_readingTimer. cbn. tauto.
  - rewrite settle_image. destruct (generateCardImage (name card) answer); cbn; tauto.
  - rewrite settle_text. cbn. tauto.
Qed.

Section Steps.

Variable Math_random : nat -> Q.

(** The turn in which a pending task ends. *)
Lemma step_Complete (w : World) (k : nat) (t : Task) (c : Completion) (h : M unit) :
  nth_error (pending w) k = Some t -> continuation t c = Some h ->
  step Math_random w (Complete k c) =
  Some {| state := settle (state w) (t, c); cardLayout := cardLayout w;
          pending := (removeNth k (pending w) ++ spawned t c)%list; calls := calls w |}.
Proof.
  intros Hk Hc. unfold step. rewrite Hk, Hc. f_equal.
  pose proof (continuation_exec t c h (state w) (calls w) Hc) as E.
  destruct (settle_deps (state w) (t, c)) as [Hl [Hw _]].
  rewrite commit_same_deps; rewrite E; cbn [st out rnd]; auto.
Qed.

Lemma step_Complete_inv (w : World) (k : nat) (c : Completion) (w' : World) :
  step Math_random w (Complete k c) = Some w' ->
  exists t, nth_error (pending w) k = Some t
            /\ w' = {| state := settle (state w) (t, c); cardLayout := cardLayout w;
                       pending := (removeNth k (pending w) ++ spawned t c)%list;
                       calls := calls w |}.
Proof.
  intros H. unfold step in H.
  destruct (nth_error (pending w) k) as [t|] eqn:Hk; [|discriminate].
  destruct (continuation t c) as [h|] eqn:Hc; [|discriminate].
  exists t. split; [reflexivity|].
  pose proof (step_Complete w k t c h Hk Hc) as E. unfold step in E.
  rewrite Hk, Hc in E. congruence.
Qed.

(** The turn of an accepted start. *)
Lemma step_Start_accepted (w : World) :
  gameState (state w) = Input ->
  JsString.truthy (JsString.trim (question (state w))) = true ->
  step Math_random w Start =
  Some {| state := {| gameState := Shuffling; question := question (state w);
                      deck := deck (state w); selectedCards := selectedCards (state w);
                      reading := reading (state w);
                      loadingReading := loadingReading (state w);
                      layoutSeed := layoutSeed (state w) + 1;
                      screenWidth := screenWidth (state w) |};
          cardLayout := computeLayout Math_random (isMobile (state w)) (calls w);
          pending := (pending w ++ [ShuffleTimer])%list;
          calls := calls w + 2 * totalCards |}.
Proof.
  intros Hg Hq. unfold step. cbn [offered]. rewrite Hg. cbn [AppState_eqb].
  f_equal. unfold commit. run_handler. rewrite Hq. cbn [negb st out rnd snd].
  unfold depsChanged. fields.
  assert (E : (layoutSeed (state w) =? layoutSeed (state w) + 1)%nat = false)
    by (apply Nat.eqb_neq; lia).
  rewrite E. cbn [andb negb]. reflexivity.
Qed.

(** The turn of a start on a blank question. *)
Lemma step_Start_blank (w : World) :
  gameState (state w) = Input ->
  JsString.truthy (JsString.trim (question (state w))) = false ->
  step Math_random w Start = Some w.
Proof.
  intros Hg Hq. unfold step. cbn [offered]. rewrite Hg. cbn [AppState_eqb].
  f_equal. cbn [handler]. unfold handleStart. rewrite Hq. cbn [negb].
  apply commit_skip.
Qed.

(** The turn of a resize. *)
Lemma step_Resize (w : World) (innerWidth : Z) :
  step Math_random w (Resize innerWidth) =
  Some (let s' := {| gameState := gameState (state w); question := question (state w);
                     deck := deck (state w); selectedCards := selectedCards (state w);
                     reading := reading (state w);
                     loadingReading := loadingReading (state w);
                     layoutSeed := layoutSeed (state w);
                     screenWidth := innerWidth |} in
        if (innerWidth =? screenWidth (state w))%Z
        then {| state := s'; cardLayout := cardLayout w; pending := pending w;
                calls := calls w |}
        else {| state := s'; cardLayout := computeLayout Math_random (isMobile s') (calls w);
                pending := pending w; calls := calls w + 2 * totalCards |}).
Proof.
  unfold step. cbn [offered]. f_equal. unfold commit. run_handler. rewrite app_nil_r.
  unfold depsChanged. fields. rewrite Nat.eqb_refl. cbn [andb].
  rewrite (Z.eqb_sym innerWidth).
  destruct (Z.eqb_spec (screenWidth (state w)) innerWidth) as [E|N].
  - unfold isMobile. fields. rewrite E, eqb_reflx. reflexivity.
  - reflexivity.
Qed.

(** The turn of a selection. *)
Lemma step_Select (w : World) (index : nat) :
  offered w (Select index) = true ->
  step Math_random w (Select index) =
  Some (if (3 <=? List.length (selectedCards (state w)))%nat then w
        else
          let newCard := {| name := drawName (deck (state w)) (Math_random (calls w));
                            isReversed := drawReversed (Math_random (S (calls w)));
                            id := index; imageUrl := None |} in
          let newSelection := (selectedCards (state w) ++ [newCard])%list in
          {| state := {| gameState := gameState (state w); question := question (state w);
                         deck := deck (state w); selectedCards := newSelection;
                         reading := reading (state w);
                         loadingReading := loadingReading (state w);
                         layoutSeed := layoutSeed (state w);
                         screenWidth := screenWidth (state w) |};
             cardLayout := cardLayout w;
             pending := (pending w ++
                         if (List.length newSelection =? 3)%nat
                         then [ReadingTimer newSelection (question (state w))]
                         else [])%list;
             calls := S (S (calls w)) |}).
Proof.
  intros Ho. unfold step. rewrite Ho. f_equal. cbn [handler]. unfold handleCardSelect.
  destruct (3 <=? List.length (selectedCards (state w)))%nat.
  - apply commit_skip.
  - cbv zeta. rewrite commit_same_deps.
    + run_handler.
      destruct (List.length (selectedCards (state w) ++ _) =? 3)%nat; reflexivity.
    + run_handler.
      destruct (List.length (selectedCards (state w) ++ _) =? 3)%nat; reflexivity.
    + run_handler.
      destruct (List.length (selectedCards (state w) ++ _) =? 3)%nat; reflexivity.
Qed.

(** The turn of a reset, offered or not. *)
Lemma commit_resetGame (w : World) :
  commit Math_random w (pending w) resetGame =
  {| state := {| gameState := Input; question := ""; deck := deck (state w);
                 selectedCards := []; reading := "";
                 loadingReading := loadingReading (state w);
                 layoutSeed := layoutSeed (state w);
                 screenWidth := screenWidth (state w) |};
     cardLayout := cardLayout w; pending := pending w; calls := calls w |}.
Proof.
  rewrite commit_same_deps by reflexivity. run_handler. rewrite app_nil_r. reflexivity.
Qed.

Lemma step_Change (w : World) (value : string) :
  offered w (Change value) = true ->
  step Math_random w (Change value) =
  Some {| state := {| gameState := gameState (state w); question := value;
                      deck := deck (state w); selectedCards := selectedCards (state w);
                      reading := reading (state w);
                      loadingReading := loadingReading (state w);
                      layoutSeed := layoutSeed (state w);
                      screenWidth := screenWidth (state w) |};
          cardLayout := cardLayout w; pending := pending w; calls := calls w |}.
Proof.
  intros Ho. unfold step. rewrite Ho. f_equal.
  rewrite commit_same_deps by reflexivity. run_handler. rewrite app_nil_r. reflexivity.
Qed.

End Steps.

(* ================================================================= *)
(** ** The session state machine *)

Section Session.

Variable Math_random : nat -> Q.

(** C4, as amended.  From every world, offered or not, [resetGame]
    sets four cells in one commit: the state becomes [Input] and the
    question, the drawn cards and the narrative become empty.  The
    layout and [layoutSeed] stay as they were (the layout of the
    session that ended remains until the next start), and so do
    [loadingReading], the deck, the screen width and the pending
    tasks.  The page offers the reset only in [Reading] once
    [loadingReading] is off. *)
Theorem resetGame_resets_four_cells (w : World) :
  let w' := {| state := {| gameState := Input; question := ""; deck := deck (state w);
                           selectedCards := []; reading := "";
                           loadingReading := loadingReading (state w);
                           layoutSeed := layoutSeed (state w);
                           screenWidth := screenWidth (state w) |};
               cardLayout := cardLayout w; pending := pending w; calls := calls w |} in
  commit Math_random w (pending w) resetGame = w'
  /\ step Math_random w ConsultAgain =
     (if AppState_eqb (gameState (state w)) Reading && negb (loadingReading (state w))
      then Some w' else None).
Proof.
  cbv zeta. split.
  - apply commit_resetGame.
  - unfold step. cbn [offered handler].
    destruct (AppState_eqb (gameState (state w)) Reading && negb (loadingReading (state w)));
      [|reflexivity].
    rewrite commit_resetGame. reflexivity.
Qed.

(** C6.  In every reachable world at most three cards are drawn.
    When three are drawn, selecting a slot changes nothing at all:
    state, layout, pending tasks and the count of [Math.random]
    calls are the same, and the turn ends normally.  Between two
    worlds in [Selecting] the number of drawn cards never
    decreases. *)
Theorem select_when_full_is_ignored (w : World) :
  reachable Math_random w ->
  (List.length (selectedCards (state w)) <= 3)%nat
  /\ (List.length (selectedCards (state w)) = 3%nat ->
      forall index,
        commit Math_random w (pending w) (handleCardSelect Math_random (state w) index) = w
        /\ step Math_random w (Select index)
           = (if offered w (Select index) then Some w else None))
  /\ (forall e w',
        step Math_random w e = Some w' ->
        gameState (state w) = Selecting -> gameState (state w') = Selecting ->
        (List.length (selectedCards (state w)) <= List.length (selectedCards (state w')))%nat).
Proof.
  intros Hr. pose proof (reachable_Good Math_random w Hr) as G.
  split; [exact (good_cards _ _ G)|]. split.
  - intros H3 index.
    assert (E : commit Math_random w (pending w)
                  (handleCardSelect Math_random (state w) index) = w).
    { unfold handleCardSelect. rewrite H3. cbn [Nat.leb]. apply commit_skip. }
    split; [exact E|].
    unfold step. destruct (offered w (Select index)); [|reflexivity].
    cbn [handler]. rewrite E. reflexivity.
  - intros e w' Hstep Hs Hs'.
    destruct e as [innerWidth|value| |index| |k c].
    + rewrite step_Resize in Hstep. injection Hstep as <-. cbv zeta.
      destruct (innerWidth =? screenWidth (state w))%Z; cbn; lia.
    + unfold step in Hstep. cbn [offered] in Hstep. rewrite Hs in Hstep. discriminate.
    + unfold step in Hstep. cbn [offered] in Hstep. rewrite Hs in Hstep. discriminate.
    + destruct (offered w (Select index)) eqn:Ho.
      * rewrite (step_Select Math_random w index Ho) in Hstep.
        destruct (3 <=? List.length (selectedCards (state w)))%nat;
          injection Hstep as <-; cbn [state selectedCards]; rewrite ?length_app; lia.
      * unfold step in Hstep. rewrite Ho in Hstep. discriminate.
    + unfold step in Hstep. cbn [offered] in Hstep. rewrite Hs in Hstep. discriminate.
    + apply step_Complete_inv in Hstep. destruct Hstep as [t [Hk ->]]. cbn [state].
      destruct t, c; try (unfold settle; cbn; lia).
      * rewrite settle_readingTimer. cbn. lia.
      * rewrite settle_image. destruct (generateCardImage (name card) answer); [|lia].
        cbn. rewrite length_map. lia.
      * rewrite settle_text. cbn. lia.
Qed.



End Session.

(* ================================================================= *)
(** ** Results that arrive late, and in any order *)

Lemma settle_comm (s : State) (j1 j2 : Task * Completion) :
  jobKey j1 <> jobKey j2 -> settle (settle s j1) j2 = settle (settle s j2) j1.
Proof.
  destruct j1 as [t1 c1], j2 as [t2 c2]. unfold jobKey. cbn [fst].
  intros Hk.
  destruct t1, t2; try congruence;
    destruct c1 as [|a1|a1], c2 as [|a2|a2]; try reflexivity;
    rewrite ?settle_image;
    repeat match goal with
           | |- context [generateCardImage ?n ?a] => destruct (generateCardImage n a)
           end; try reflexivity;
    rewrite ?settle_image, ?settle_readingTimer; try reflexivity;
    try (destruct a1; reflexivity); try (destruct a2; reflexivity).
  fields. rewrite !map_map. f_equal. apply map_ext. intros c.
  apply merge_comm. congruence.
Qed.

Lemma settle_all_perm (l l' : list (Task * Completion)) :
  Permutation l l' -> NoDup (map jobKey l) ->
  forall s, fold_left settle l s = fold_left settle l' s.
Proof.
  induction 1 as [|x l l' HP IH|x y l|l l' l'' HP1 IH1 HP2 IH2]; intros Hnd s.
  - reflexivity.
  - cbn [fold_left]. apply IH. now inversion Hnd.
  - cbn [fold_left]. f_equal. apply settle_comm.
    cbn [map] in Hnd. inversion Hnd as [|? ? Hx _]. intros E. apply Hx. left.
    symmetry. exact E.
  - rewrite IH1 by assumption. apply IH2.
    apply (Permutation_NoDup (l := map jobKey l)); [|assumption].
    apply Permutation_map. assumption.
Qed.

Lemma jobs_keys (cs : list CardData) (q : string) (answers : list (Outcome ImageResponse))
      (ta : Outcome TextResponse) :
  List.length answers = List.length cs -> NoDup (map id cs) ->
  NoDup (map jobKey (jobs cs q answers ta)).
Proof.
  intros Hlen Hnd. unfold jobs. rewrite map_app. cbn [map jobKey fst].
  assert (E : map jobKey (combine (map ImageRequest cs) (map ImageAnswer answers))
              = map Some (map id cs)).
  { clear Hnd. revert answers Hlen. induction cs as [|c cs IH]; intros [|a answers] Hlen;
      simpl in *; try discriminate; try reflexivity.
    unfold jobKey at 1. cbn [fst]. f_equal. apply IH. lia. }
  rewrite E. clear E.
  induction Hnd as [|a l Ha Hl IH]; simpl.
  - constructor; [tauto|constructor].
  - constructor; [|exact IH].
    rewrite in_app_iff. intros [H|[H|[]]]; [|discriminate].
    apply in_map_iff in H. destruct H as [b [Hb Hin]]. injection Hb as ->. tauto.
Qed.

Lemma only_images (p : list Task) (t : Task) :
  count isShuffleTimer p = 0%nat -> count isReadingTimer p = 0%nat ->
  count isTextRequest p = 0%nat -> In t p -> exists card, t = ImageRequest card.
Proof.
  intros H1 H2 H3 Hin.
  pose proof (count_zero_In _ _ _ H1 Hin) as E1.
  pose proof (count_zero_In _ _ _ H2 Hin) as E2.
  pose proof (count_zero_In _ _ _ H3 Hin) as E3.
  destruct t; try discriminate. eauto.
Qed.

Section Late.

Variable Math_random : nat -> Q.

(** A run of task endings changes the state by [settle], one task
    after the other, and keeps the layout. *)
Lemma completions_run (w : World) (es : list Event) (js : list (Task * Completion)) :
  completions Math_random w es = Some js ->
  exists w', run Math_random w es = Some w'
             /\ state w' = fold_left settle js (state w)
             /\ cardLayout w' = cardLayout w.
Proof.
  revert w js. induction es as [|e es IH]; intros w js H.
  - injection H as <-. exists w. repeat split.
  - destruct e as [innerWidth|value| |index| |k c]; try discriminate.
    cbn [completions] in H.
    destruct (nth_error (pending w) k) as [t|] eqn:Hk; [|discriminate].
    destruct (step Math_random w (Complete k c)) as [w1|] eqn:Hstep; [|discriminate].
    destruct (completions Math_random w1 es) as [js1|] eqn:Hjs; [|discriminate].
    injection H as <-.
    destruct (IH w1 js1 Hjs) as [w' [Hrun [Hs Hl]]].
    exists w'. cbn [run]. rewrite Hstep. split; [exact Hrun|].
    apply step_Complete_inv in Hstep. destruct Hstep as [t' [Hk' ->]].
    rewrite Hk in Hk'. injection Hk' as <-.
    cbn [state cardLayout] in Hs, Hl. cbn [fold_left]. split; assumption.
Qed.

(** C1, as amended.  Nothing is cancelled and nothing is tagged with
    its session; what holds instead is this.  The page offers the
    reset only in [Reading] with [loadingReading] off, and in such a
    reachable world every pending task is an artwork request: both
    timers have fired and the narrative has settled, so no timer and
    no narrative result can arrive after a reset.  An artwork result
    that arrives in any later world [v] is merged into the cards
    drawn there by slot id: it leaves the lifecycle state, the
    question, the narrative, the layout and the pending tasks of
    others alone, keeps every card's name, orientation and slot, and
    changes nothing at all when the request failed or when no card
    of [v] has the slot of the stale card. *)
Theorem stale_results_after_reset (w w' : World) :
  reachable Math_random w ->
  step Math_random w ConsultAgain = Some w' ->
  (pending w' = pending w /\ forall t, In t (pending w') -> exists card, t = ImageRequest card)
  /\ (forall v k card answer,
        nth_error (pending v) k = Some (ImageRequest card) ->
        step Math_random v (Complete k (ImageAnswer answer)) =
        Some {| state :=
                  match generateCardImage (name card) answer with
                  | Some url =>
                      {| gameState := gameState (state v); question := question (state v);
                         deck := deck (state v);
                         selectedCards := map (merge (id card) url) (selectedCards (state v));
                         reading := reading (state v);
                         loadingReading := loadingReading (state v);
                         layoutSeed := layoutSeed (state v);
                         screenWidth := screenWidth (state v) |}
                  | None => state v
                  end;
                cardLayout := cardLayout v;
                pending := removeNth k (pending v);
                calls := calls v |}
        /\ (generateCardImage (name card) answer = None
            \/ ~ In (id card) (map id (selectedCards (state v))) ->
            step Math_random v (Complete k (ImageAnswer answer)) =
            Some {| state := state v; cardLayout := cardLayout v;
                    pending := removeNth k (pending v); calls := calls v |}))
  /\ (forall target url c,
        name (merge target url c) = name c
        /\ isReversed (merge target url c) = isReversed c
        /\ id (merge target url c) = id c
        /\ (id c <> target -> merge target url c = c)).
Proof.
  intros Hr Hstep. pose proof (reachable_Good Math_random w Hr) as G.
  split; [|split].
  - unfold step in Hstep. destruct (offered w ConsultAgain) eqn:Ho; [|discriminate].
    cbn [handler] in Hstep. rewrite commit_resetGame in Hstep. injection Hstep as <-.
    cbn [pending]. split; [reflexivity|].
    cbn [offered] in Ho. apply andb_true_iff in Ho as [Hg Hl].
    apply negb_true_iff in Hl.
    destruct G as [_ _ _ _ _ _ Gst Grt Gtr _].
    apply AppState_eqb_eq in Hg. rewrite Hg, ?Hl in *. cbn [AppState_eqb andb] in *.
    intros t. apply only_images; assumption.
  - intros v k card answer Hk.
    assert (E : step Math_random v (Complete k (ImageAnswer answer)) =
                Some {| state := settle (state v) (ImageRequest card, ImageAnswer answer);
                        cardLayout := cardLayout v;
                        pending := removeNth k (pending v); calls := calls v |}).
    { rewrite (step_Complete Math_random v k _ (ImageAnswer answer)
                 (imageDone card answer) Hk eq_refl).
      cbn [spawned]. rewrite app_nil_r. reflexivity. }
    rewrite E, settle_image. split; [reflexivity|].
    intros [Hnone|Habsent].
    + rewrite Hnone. reflexivity.
    + destruct (generateCardImage (name card) answer) as [url|]; [|reflexivity].
      rewrite (map_merge_absent _ _ _ Habsent). destruct (state v); reflexivity.
  - intros target url c. repeat split.
    + unfold merge. destruct (id c =? target)%nat; reflexivity.
    + unfold merge. destruct (id c =? target)%nat; reflexivity.
    + apply merge_id.
    + apply merge_other.
Qed.

(** C2, as amended.  Over one turn of the event loop the layout is
    either kept as it is or computed anew from the next 44 draws,
    and it is computed anew exactly when the turn changes
    [layoutSeed] or [screenWidth]: at an accepted start, and at a
    resize to a width other than the present one (whether or not the
    page stays compact).  The count of draws never goes back, so the
    draws of a new layout were used by nothing before. *)
Theorem cardLayout_recomputed_when (w : World) (e : Event) (w' : World) :
  step Math_random w e = Some w' ->
  (calls w <= calls w')%nat
  /\ if redraws w e
     then cardLayout w' = computeLayout Math_random (isMobile (state w')) (calls w)
          /\ calls w' = (calls w + 2 * totalCards)%nat
     else cardLayout w' = cardLayout w.
Proof.
  intros Hstep. destruct e as [innerWidth|value| |index| |k c]; cbn [redraws].
  - rewrite step_Resize in Hstep. injection Hstep as <-. cbv zeta.
    destruct (innerWidth =? screenWidth (state w))%Z; cbn [negb calls cardLayout state];
      repeat split; lia.
  - destruct (offered w (Change value)) eqn:Ho.
    + rewrite (step_Change Math_random w value Ho) in Hstep. injection Hstep as <-.
      cbn [calls cardLayout]. split; [lia|reflexivity].
    + unfold step in Hstep. rewrite Ho in Hstep. discriminate.
  - destruct (offered w Start) eqn:Ho.
    + cbn [offered] in Ho. apply AppState_eqb_eq in Ho.
      destruct (JsString.truthy (JsString.trim (question (state w)))) eqn:Hq.
      * rewrite (step_Start_accepted Math_random w Ho Hq) in Hstep.
        injection Hstep as <-. cbn [calls cardLayout state].
        repeat split; lia.
      * rewrite (step_Start_blank Math_random w Ho Hq) in Hstep.
        injection Hstep as <-. split; [lia|reflexivity].
    + unfold step in Hstep. rewrite Ho in Hstep. discriminate.
  - destruct (offered w (Select index)) eqn:Ho.
    + rewrite (step_Select Math_random w index Ho) in Hstep.
      destruct (3 <=? List.length (selectedCards (state w)))%nat;
        injection Hstep as <-; cbn [calls cardLayout]; split; try lia; reflexivity.
    + unfold step in Hstep. rewrite Ho in Hstep. discriminate.
  - destruct (offered w ConsultAgain) eqn:Ho.
    + unfold step in Hstep. rewrite Ho in Hstep. cbn [handler] in Hstep.
      rewrite commit_resetGame in Hstep. injection Hstep as <-.
      cbn [calls cardLayout]. split; [lia|reflexivity].
    + unfold step in Hstep. rewrite Ho in Hstep. discriminate.
  - apply step_Complete_inv in Hstep. destruct Hstep as [t [_ ->]].
    cbn [calls cardLayout]. split; [lia|reflexivity].
Qed.

(** C9, as amended.  When the reading timer of a reachable world
    fires, the cards it carries come from distinct slots, and it
    starts one artwork request per card and the narrative request.
    When an artwork request ends, in any world, the turn keeps the
    lifecycle state, the question, the narrative, the deck, the
    layout and the count of draws, takes the request off the pending
    tasks and starts nothing.  With an image, every drawn card at the
    slot of the request gets that image and keeps its name,
    orientation and slot, and every other drawn card stays as it is;
    without one no card changes.  The drawn cards of a reachable
    world sit at distinct slots, so at most one card is written.
    Two runs that end the same tasks the same way, in any two
    orders, end in the same state and layout, provided that no two
    of the artwork requests are for the same slot and at most one of
    the tasks is not an artwork request; such are the three artwork
    requests and the narrative request of one reading.  (Requests
    are not cancelled at a reset: a request of an earlier session
    for the same slot may still be pending, and of two results for
    one slot the later one stays.) *)
Theorem artwork_merge_order_independent
        (w : World) (k : nat) (cs : list CardData) (q : string) :
  reachable Math_random w ->
  nth_error (pending w) k = Some (ReadingTimer cs q) ->
  (NoDup (map id cs) /\ NoDup (map id (selectedCards (state w))))
  /\ step Math_random w (Complete k Fired) =
     Some {| state := {| gameState := Reading; question := question (state w);
                         deck := deck (state w);
                         selectedCards := selectedCards (state w); reading := "";
                         loadingReading := true; layoutSeed := layoutSeed (state w);
                         screenWidth := screenWidth (state w) |};
             cardLayout := cardLayout w;
             pending := (removeNth k (pending w)
                         ++ map ImageRequest cs ++ [TextRequest cs q])%list;
             calls := calls w |}
  /\ (forall v n card answer,
        nth_error (pending v) n = Some (ImageRequest card) ->
        exists v',
          step Math_random v (Complete n (ImageAnswer answer)) = Some v'
          /\ (gameState (state v') = gameState (state v)
              /\ question (state v') = question (state v)
              /\ reading (state v') = reading (state v)
              /\ loadingReading (state v') = loadingReading (state v)
              /\ deck (state v') = deck (state v)
              /\ layoutSeed (state v') = layoutSeed (state v)
              /\ screenWidth (state v') = screenWidth (state v))
          /\ (cardLayout v' = cardLayout v /\ calls v' = calls v
              /\ pending v' = removeNth n (pending v))
          /\ List.length (selectedCards (state v')) = List.length (selectedCards (state v))
          /\ (forall i c,
                nth_error (selectedCards (state v)) i = Some c ->
                nth_error (selectedCards (state v')) i =
                Some match generateCardImage (name card) answer with
                     | Some url =>
                         if (id c =? id card)%nat
                         then {| name := name c; isReversed := isReversed c; id := id c;
                                 imageUrl := Some url |}
                         else c
                     | None => c
                     end))
  /\ (forall v, reachable Math_random v -> NoDup (map id (selectedCards (state v))))
  /\ (forall v es es' js js',
        completions Math_random v es = Some js ->
        completions Math_random v es' = Some js' ->
        Permutation js js' ->
        NoDup (map jobKey js) ->
        exists v1 v2,
          run Math_random v es = Some v1 /\ run Math_random v es' = Some v2
          /\ state v1 = state v2
          /\ cardLayout v1 = cardLayout v2 /\ cardLayout v1 = cardLayout v)
  /\ (forall answers ta,
        List.length answers = List.length cs ->
        NoDup (map jobKey (jobs cs q answers ta))).
Proof.
  intros Hr Hk. pose proof (reachable_Good Math_random w Hr) as G.
  assert (Hnd : NoDup (map id cs)).
  { apply (good_timerCards _ _ G cs q). exact (nth_error_In _ _ Hk). }
  split; [split; [exact Hnd | exact (good_nodup _ _ G)]|].
  split; [|split; [|split; [|split]]].
  - rewrite (step_Complete Math_random w k _ Fired (readingDue cs q) Hk eq_refl).
    rewrite settle_readingTimer. reflexivity.
  - intros v n card answer Hn. eexists. split.
    { exact (step_Complete Math_random v n _ (ImageAnswer answer)
               (imageDone card answer) Hn eq_refl). }
    cbn [state cardLayout calls pending spawned]. rewrite app_nil_r, settle_image.
    destruct (generateCardImage (name card) answer) as [url|].
    + cbn [gameState question reading loadingReading deck layoutSeed screenWidth
           selectedCards].
      repeat split.
      * apply length_map.
      * intros i c Hi. rewrite nth_error_map, Hi. reflexivity.
    + repeat split. intros i c Hi. exact Hi.
  - intros v Hv. exact (good_nodup _ _ (reachable_Good Math_random v Hv)).
  - intros v es es' js js' Hes Hes' HP Hkeys.
    destruct (completions_run v es js Hes) as [v1 [Hrun1 [Hs1 Hl1]]].
    destruct (completions_run v es' js' Hes') as [v2 [Hrun2 [Hs2 Hl2]]].
    exists v1, v2. split; [exact Hrun1|]. split; [exact Hrun2|].
    split; [|split; [congruence|exact Hl1]].
    rewrite Hs1, Hs2. apply settle_all_perm; assumption.
  - intros answers ta Hlen. apply jobs_keys; assumption.
Qed.

End Late.

(* ================================================================= *)
(** ** The layout and the draw *)

Lemma randomR_range (isMobile : bool) (u : Q) :
  (0 <= u < 1)%Q ->
  if isMobile then (-2 <= randomR true u < 2)%Q else (-4 <= randomR false u < 4)%Q.
Proof.
  intros [H0 H1]. unfold randomR. destruct isMobile; split; lra.
Qed.

Lemma randomAngle_range (u : Q) : (0 <= u < 1)%Q -> (-1 <= randomAngle u < 1)%Q.
Proof. intros [H0 H1]. unfold randomAngle. split; lra. Qed.

Lemma nth_error_map_seq {A} (f : nat -> A) (n i : nat) :
  (i < n)%nat -> nth_error (map f (seq 0 n)) i = Some (f i).
Proof.
  intros Hi. rewrite nth_error_map.
  rewrite (nth_error_nth' (seq 0 n) 0%nat) by (rewrite length_seq; exact Hi).
  rewrite seq_nth by exact Hi. reflexivity.
Qed.

(** *** Rounding to a Number *)

Lemma Qfloor_between (y : Q) (k : Z) :
  (inject_Z k <= y)%Q -> (y < inject_Z k + 1)%Q -> Qfloor y = k.
Proof.
  intros Hlo Hhi.
  pose proof (Qfloor_le y) as Hle. pose proof (Qlt_floor y) as Hlt.
  rewrite inject_Z_plus in Hlt. change (inject_Z 1) with 1%Q in Hlt.
  assert (H1 : (inject_Z (Qfloor y) < inject_Z (k + 1))%Q).
  { rewrite inject_Z_plus. change (inject_Z 1) with 1%Q. lra. }
  assert (H2 : (inject_Z k < inject_Z (Qfloor y + 1))%Q).
  { rewrite inject_Z_plus. change (inject_Z 1) with 1%Q. lra. }
  rewrite <- Zlt_Qlt in H1, H2. lia.
Qed.

Lemma roundTiesToEven_floor (q : Q) :
  roundTiesToEven q = Qfloor q \/
  (roundTiesToEven q = (Qfloor q + 1)%Z /\ (inject_Z (Qfloor q) + (1 # 2) <= q)%Q).
Proof.
  unfold roundTiesToEven.
  destruct (q - inject_Z (Qfloor q) ?= 1 # 2)%Q eqn:E.
  - apply Qeq_alt in E. destruct (Z.even (Qfloor q)); [left; reflexivity|].
    right. split; [reflexivity|lra].
  - left. reflexivity.
  - apply Qgt_alt in E. right. split; [reflexivity|lra].
Qed.

Lemma roundTiesToEven_ge (q : Q) (n : Z) : (inject_Z n <= q)%Q -> (n <= roundTiesToEven q)%Z.
Proof.
  intros H. assert (Hf : (n <= Qfloor q)%Z).
  { rewrite <- (Qfloor_Z n). apply Qfloor_resp_le. exact H. }
  destruct (roundTiesToEven_floor q) as [->|[-> _]]; lia.
Qed.

Lemma roundTiesToEven_le (q : Q) (n : Z) : (q <= inject_Z n)%Q -> (roundTiesToEven q <= n)%Z.
Proof.
  intros H. pose proof (Qfloor_le q) as Hf.
  destruct (roundTiesToEven_floor q) as [->|[-> Hh]].
  - rewrite Zle_Qle. lra.
  - assert (Hlt : (inject_Z (Qfloor q) < inject_Z n)%Q) by lra.
    rewrite <- Zlt_Qlt in Hlt. lia.
Qed.

Lemma roundTiesToEven_lt (q : Q) (n : Z) :
  (q < inject_Z n - (1 # 2))%Q -> (roundTiesToEven q < n)%Z.
Proof.
  intros H. pose proof (Qfloor_le q) as Hf.
  destruct (roundTiesToEven_floor q) as [->|[-> Hh]].
  - rewrite Zlt_Qlt. lra.
  - assert (Hlt : (inject_Z (Qfloor q + 1) < inject_Z n)%Q).
    { rewrite inject_Z_plus. change (inject_Z 1) with 1%Q. lra. }
    rewrite <- Zlt_Qlt in Hlt. exact Hlt.
Qed.

(** Below 128 the unit in the last place is at most 2^-46. *)
Lemma ulpExponent_small (x : Q) :
  (0 <= x)%Q -> (x < 128)%Q ->
  exists p, ulpExponent x = Zneg p /\ (2 ^ 46 <= Zpos (2 ^ p))%Z.
Proof.
  intros H0 H1.
  assert (Habs : Qabs x = x).
  { destruct x as [n d]. unfold Qabs. f_equal. apply Z.abs_eq.
    unfold Qle in H0. simpl in H0. lia. }
  assert (Hl : (floorLog2 (Qabs x) <= 6)%Z).
  { rewrite Habs. unfold floorLog2. destruct (Qle_bool 1 x) eqn:E.
    - assert (Hf : (Qfloor x <= 127)%Z).
      { assert (Hlt : (inject_Z (Qfloor x) < inject_Z 128)%Q).
        { pose proof (Qfloor_le x). change (inject_Z 128) with 128%Q. lra. }
        rewrite <- Zlt_Qlt in Hlt. lia. }
      apply (Z.log2_le_mono _ 127) in Hf. exact Hf.
    - pose proof (Z.log2_up_nonneg (Qceiling (/ x))). lia. }
  unfold ulpExponent.
  destruct (Z.max (floorLog2 (Qabs x) - 52) (-1074)) as [|p|p] eqn:E; try lia.
  exists p. split; [reflexivity|].
  assert (Hp : (46 <= Zpos p)%Z) by lia.
  rewrite Pos2Z.inj_pow. apply Z.pow_le_mono_r; lia.
Qed.

Lemma toNumber_small (x : Q) :
  (0 <= x)%Q -> (x < 128)%Q ->
  exists s : positive,
    (2 ^ 46 <= Zpos s)%Z
    /\ (toNumber x == inject_Z (roundTiesToEven (x * inject_Z (Zpos s))) / inject_Z (Zpos s))%Q.
Proof.
  intros H0 H1. destruct (ulpExponent_small x H0 H1) as [p [E Hp]].
  exists (2 ^ p)%positive. split; [exact Hp|].
  unfold toNumber. rewrite E. cbn [pow2]. rewrite Qred_correct.
  assert (Ediv : (x / (1 # 2 ^ p) == x * inject_Z (Zpos (2 ^ p)))%Q).
  { unfold Qdiv. apply Qmult_comp; [reflexivity|]. reflexivity. }
  assert (Er : roundTiesToEven (x / (1 # 2 ^ p)) = roundTiesToEven (x * inject_Z (Zpos (2 ^ p)))).
  { unfold roundTiesToEven. rewrite (Qfloor_comp _ _ Ediv).
    rewrite Ediv. reflexivity. }
  rewrite Er. unfold Qdiv. apply Qmult_comp; reflexivity.
Qed.

Lemma toNumber_between (x : Q) (n m : Z) :
  (0 <= x)%Q -> (x < 128)%Q -> (inject_Z n <= x)%Q -> (x <= inject_Z m)%Q ->
  (inject_Z n <= toNumber x)%Q /\ (toNumber x <= inject_Z m)%Q.
Proof.
  intros H0 H1 Hn Hm. destruct (toNumber_small x H0 H1) as [s [Hs ->]].
  set (sc := inject_Z (Zpos s)).
  assert (HS : (0 < sc)%Q) by (unfold sc; rewrite <- (Zlt_Qlt 0); lia).
  assert (Hlo : (n * Zpos s <= roundTiesToEven (x * sc))%Z).
  { apply roundTiesToEven_ge. rewrite inject_Z_mult. fold sc. nra. }
  assert (Hhi : (roundTiesToEven (x * sc) <= m * Zpos s)%Z).
  { apply roundTiesToEven_le. rewrite inject_Z_mult. fold sc. nra. }
  rewrite Zle_Qle, inject_Z_mult in Hlo, Hhi. fold sc in Hlo, Hhi.
  split.
  - apply Qle_shift_div_l; [exact HS|exact Hlo].
  - apply Qle_shift_div_r; [exact HS|exact Hhi].
Qed.

Lemma toNumber_below (x : Q) (m : Z) :
  (0 <= x)%Q -> (x < 128)%Q -> (x < inject_Z m - (1 # 2 ^ 47))%Q ->
  (toNumber x < inject_Z m)%Q.
Proof.
  intros H0 H1 Hm. destruct (toNumber_small x H0 H1) as [s [Hs ->]].
  set (sc := inject_Z (Zpos s)).
  assert (HS : (inject_Z (2 ^ 46) <= sc)%Q) by (unfold sc; rewrite <- Zle_Qle; exact Hs).
  assert (HS0 : (0 < sc)%Q).
  { apply Qlt_le_trans with (inject_Z (2 ^ 46)); [reflexivity|exact HS]. }
  assert (Hhi : (roundTiesToEven (x * sc) < m * Zpos s)%Z).
  { apply roundTiesToEven_lt. rewrite inject_Z_mult. fold sc.
    assert (Hh : ((1 # 2) <= (1 # 2 ^ 47) * sc)%Q).
    { apply Qle_trans with ((1 # 2 ^ 47) * inject_Z (2 ^ 46))%Q; [discriminate|].
      apply Qmult_le_l; [reflexivity|exact HS]. }
    assert (Hx : (x * sc < (inject_Z m - (1 # 2 ^ 47)) * sc)%Q).
    { apply Qmult_lt_compat_r; assumption. }
    lra. }
  rewrite Zlt_Qlt, inject_Z_mult in Hhi. fold sc in Hhi.
  apply Qlt_shift_div_r; [exact HS0|exact Hhi].
Qed.

(** A number in [1/2, 1) is a multiple of 2^-53. *)
Lemma isNumber_upper_half (u : Q) :
  isNumber u = true -> ((1 # 2) <= u)%Q -> (u < 1)%Q ->
  exists M : Z, (u == inject_Z M * (1 # 2 ^ 53))%Q.
Proof.
  intros Hn H0 H1.
  assert (Habs : Qabs u = u).
  { destruct u as [n d]. unfold Qabs. f_equal. apply Z.abs_eq.
    unfold Qle in H0. simpl in H0. lia. }
  assert (Hc : Qceiling (/ u) = 2%Z).
  { assert (Hhi : (/ u <= 2)%Q) by (apply Qle_shift_inv_r; lra).
    assert (Hlo : (1 < / u)%Q) by (apply Qlt_shift_inv_l; lra).
    pose proof (Qle_ceiling (/ u)) as Hle.
    pose proof (Qceiling_resp_le _ _ Hhi) as Hc2. change (Qceiling 2) with 2%Z in Hc2.
    assert (H : (inject_Z 1 < inject_Z (Qceiling (/ u)))%Q).
    { change (inject_Z 1) with 1%Q. lra. }
    rewrite <- Zlt_Qlt in H. lia. }
  assert (E : ulpExponent u = (-53)%Z).
  { unfold ulpExponent. rewrite Habs. unfold floorLog2.
    destruct (Qle_bool 1 u) eqn:El.
    - apply Qle_bool_iff in El. lra.
    - rewrite Hc. reflexivity. }
  unfold isNumber in Hn. apply Qeq_bool_iff in Hn.
  unfold toNumber in Hn. rewrite E, Qred_correct in Hn. cbn [pow2] in Hn.
  eexists. symmetry. exact Hn.
Qed.

Lemma Qfloor_ge (y : Q) (k : Z) : (inject_Z k <= y)%Q -> (k <= Qfloor y)%Z.
Proof. intros H. rewrite <- (Qfloor_Z k). apply Qfloor_resp_le. exact H. Qed.

Lemma Qfloor_lt (y : Q) (k : Z) : (y < inject_Z k)%Q -> (Qfloor y < k)%Z.
Proof. intros H. pose proof (Qfloor_le y). rewrite Zlt_Qlt. lra. Qed.

Lemma number_below_one (u : Q) :
  isNumber u = true -> (0 <= u)%Q -> (u < 1)%Q -> (u <= 1 - (1 # 2 ^ 53))%Q.
Proof.
  intros Hn H0 H1. destruct (Qlt_le_dec u (1 # 2)) as [Hh|Hh].
  - apply Qlt_le_weak. apply Qlt_le_trans with (1 # 2)%Q; [exact Hh|discriminate].
  - destruct (isNumber_upper_half u Hn Hh H1) as [M HM].
    assert (HM1 : (inject_Z M < inject_Z (2 ^ 53))%Q).
    { change (inject_Z (2 ^ 53)) with (9007199254740992 # 1)%Q.
      change (1 # 2 ^ 53)%Q with (1 # 9007199254740992)%Q in HM. lra. }
    rewrite <- Zlt_Qlt in HM1.
    assert (HM2 : (inject_Z M <= inject_Z (2 ^ 53 - 1))%Q) by (rewrite <- Zle_Qle; lia).
    change (inject_Z (2 ^ 53 - 1)) with (9007199254740991 # 1)%Q in HM2.
    change (1 # 2 ^ 53)%Q with (1 # 9007199254740992)%Q in *. lra.
Qed.

Lemma drawIndex_range (u : Q) :
  isNumber u = true -> (0 <= u)%Q -> (u < 1)%Q -> (0 <= drawIndex FULL_DECK u < 78)%Z.
Proof.
  intros Hn H0 H1. pose proof (number_below_one u Hn H0 H1) as Hb.
  change (1 # 2 ^ 53)%Q with (1 # 9007199254740992)%Q in Hb.
  change (drawIndex FULL_DECK u) with (Qfloor (toNumber (u * 78))). split.
  - apply Qfloor_ge.
    apply (toNumber_between (u * 78) 0 78); change (inject_Z 0) with 0%Q;
      change (inject_Z 78) with 78%Q; lra.
  - apply Qfloor_lt. apply toNumber_below; [lra|lra|].
    change (inject_Z 78 - (1 # 2 ^ 47))%Q with (78 - (1 # 140737488355328))%Q. lra.
Qed.

Lemma drawIndex_unique (u : Q) (j : Z) :
  (0 <= j < 78)%Z ->
  (inject_Z j / 78 <= u)%Q -> (u < (inject_Z j + 1) / 78 - (1 # 2 ^ 53))%Q ->
  drawIndex FULL_DECK u = j.
Proof.
  intros Hj Hlo Hhi.
  unfold Qdiv in Hlo, Hhi. change (/ 78)%Q with (1 # 78)%Q in Hlo, Hhi.
  change (1 # 2 ^ 53)%Q with (1 # 9007199254740992)%Q in Hhi.
  assert (Hj0 : (0 <= inject_Z j)%Q) by (rewrite <- (Zle_Qle 0); lia).
  assert (Hj1 : (inject_Z j <= inject_Z 77)%Q) by (rewrite <- Zle_Qle; lia).
  change (inject_Z 77) with 77%Q in Hj1.
  change (drawIndex FULL_DECK u) with (Qfloor (toNumber (u * 78))). apply Qfloor_between.
  - apply (toNumber_between (u * 78) j 78); change (inject_Z 78) with 78%Q; lra.
  - change (inject_Z j + 1)%Q with (inject_Z j + inject_Z 1)%Q.
    rewrite <- (inject_Z_plus j 1). apply toNumber_below; [lra|lra|].
    rewrite inject_Z_plus. change (inject_Z 1) with 1%Q.
    change (1 # 2 ^ 47)%Q with (1 # 140737488355328)%Q. lra.
Qed.

Lemma drawIndex_interval (u : Q) :
  (0 <= u)%Q -> (u < 1)%Q ->
  (inject_Z (drawIndex FULL_DECK u) / 78 - (1 # 2 ^ 53) < u)%Q
  /\ (u < (inject_Z (drawIndex FULL_DECK u) + 1) / 78)%Q.
Proof.
  intros H0 H1. set (k := drawIndex FULL_DECK u).
  unfold Qdiv. change (/ 78)%Q with (1 # 78)%Q.
  change (1 # 2 ^ 53)%Q with (1 # 9007199254740992)%Q.
  pose proof (Qfloor_le (toNumber (u * 78))) as Hle.
  pose proof (Qlt_floor (toNumber (u * 78))) as Hlt.
  change (Qfloor (toNumber (u * 78))) with k in Hle, Hlt.
  rewrite inject_Z_plus in Hlt. change (inject_Z 1) with 1%Q in Hlt.
  split.
  - destruct (Qlt_le_dec (u * 78) (inject_Z k - (1 # 2 ^ 47))) as [Hc|Hc].
    + pose proof (toNumber_below (u * 78) k) as Hb. lra.
    + change (1 # 2 ^ 47)%Q with (1 # 140737488355328)%Q in Hc. lra.
  - destruct (Qlt_le_dec (u * 78) (inject_Z (k + 1))) as [Hc|Hc].
    + rewrite inject_Z_plus in Hc. change (inject_Z 1) with 1%Q in Hc. lra.
    + assert (Hb : (inject_Z (k + 1) <= toNumber (u * 78))%Q).
      { apply (toNumber_between (u * 78) (k + 1) 78);
          [lra|lra|exact Hc|change (inject_Z 78) with 78%Q; lra]. }
      rewrite inject_Z_plus in Hb. change (inject_Z 1) with 1%Q in Hb. lra.
Qed.

Lemma toNumber_0_8 : toNumber 0.8 = (3602879701896397 # 4503599627370496)%Q.
Proof. vm_compute. reflexivity. Qed.

Lemma drawReversed_spec (u : Q) : drawReversed u = true <-> (toNumber 0.8 < u)%Q.
Proof.
  unfold drawReversed. rewrite negb_true_iff.
  destruct (Qle_bool u (toNumber 0.8)) eqn:E.
  - apply Qle_bool_iff in E. split; [discriminate|]. intros H. exfalso. lra.
  - split; [|reflexivity]. intros _.
    apply Qnot_le_lt. intros H. apply Qle_bool_iff in H. congruence.
Qed.

Lemma above_0_8 (u : Q) :
  isNumber u = true -> (0 <= u)%Q -> (u < 1)%Q -> ((0.8 < u)%Q <-> (toNumber 0.8 <= u)%Q).
Proof.
  intros Hn H0 H1. rewrite toNumber_0_8.
  destruct (Qlt_le_dec u (1 # 2)) as [Hh|Hh]; [split; intros H; lra|].
  destruct (isNumber_upper_half u Hn Hh H1) as [M HM].
  change (1 # 2 ^ 53)%Q with (1 # 9007199254740992)%Q in HM.
  split; intros H.
  - assert (HZ : (inject_Z 7205759403792793 < inject_Z M)%Q).
    { change (inject_Z 7205759403792793) with (7205759403792793 # 1)%Q. lra. }
    rewrite <- Zlt_Qlt in HZ.
    assert (HZ' : (inject_Z 7205759403792794 <= inject_Z M)%Q) by (rewrite <- Zle_Qle; lia).
    change (inject_Z 7205759403792794) with (7205759403792794 # 1)%Q in HZ'. lra.
  - lra.
Qed.

(** At the draw 288692283805801 / 2^50 the exact product lies below
    20 and the Number nearest to it is 20: the entry 20 is drawn. *)
Example drawIndex_where_the_product_rounds_up :
  isNumber (288692283805801 # 2 ^ 50) = true
  /\ Qfloor ((288692283805801 # 2 ^ 50) * 78) = 19%Z
  /\ toNumber ((288692283805801 # 2 ^ 50) * 78) = 20%Q
  /\ drawIndex FULL_DECK (288692283805801 # 2 ^ 50) = 20%Z
  /\ drawName FULL_DECK (288692283805801 # 2 ^ 50) = "Judgement (审判)".
Proof. repeat split; vm_compute; reflexivity. Qed.

(** The largest Number below 1 draws the last entry. *)
Example drawIndex_at_the_largest_draw :
  isNumber (1 - (1 # 2 ^ 53)) = true
  /\ drawIndex FULL_DECK (1 - (1 # 2 ^ 53)) = 77%Z
  /\ drawName FULL_DECK (1 - (1 # 2 ^ 53)) = "King of Pentacles (星币)".
Proof. repeat split; vm_compute; reflexivity. Qed.

(** The draw that is the Number [0.8] is above 4/5 and gives an
    upright card; the next Number gives a reversed one. *)
Example drawReversed_at_the_literal :
  isNumber (toNumber 0.8) = true
  /\ (0.8 < toNumber 0.8)%Q
  /\ drawReversed (toNumber 0.8) = false
  /\ isNumber (toNumber 0.8 + (1 # 2 ^ 53)) = true
  /\ drawReversed (toNumber 0.8 + (1 # 2 ^ 53)) = true.
Proof. repeat split; vm_compute; reflexivity. Qed.

(** On the sample Numbers [toNumber] of the exact product is the
    product of binary64 as the Standard Library specifies it. *)
Example toNumber_is_the_binary64_product :
  forallb (fun a => productAgrees a (binary64 false 5488762045857792 (-46))
                    && productAgrees a a
                    && productAgrees a (binary64 true 7205759403792794 (-53)))
          sampleNumbers = true.
Proof. vm_compute. reflexivity. Qed.

Section Layout.

Variable Math_random : nat -> Q.

(** C3.  With draws in [0, 1), the slot [i] of a layout computed
    after [calls] calls of [Math.random] is made of the draws
    [calls + 2i] and [calls + 2i + 1], which no other slot uses.
    Its base angle is -90 + i * 360/22 degrees.  Its radius is 115
    (compact) or 240 plus a jitter that is (draw - 0.5) times 4
    (compact) or 8, hence within 4, respectively 8, of zero (it
    stays within 2, respectively 4: [randomR_range]).  Its angle is
    the base angle plus a jitter of (draw - 0.5) * 2 degrees, within
    1 of zero, turned into radians; the position is that radius at
    that angle.  Its rotation is the base angle plus 90 plus the
    same angular jitter, and its z-order is [i]. *)
Theorem cardLayout_slot_geometry (isMobile : bool) (calls i : nat) :
  unitDraws Math_random ->
  (i < totalCards)%nat ->
  let u1 := Math_random (calls + 2 * i)%nat in
  let u2 := Math_random (calls + 2 * i + 1)%nat in
  let slot := layoutSlot isMobile i u1 u2 in
  nth_error (computeLayout Math_random isMobile calls) i = Some slot
  /\ (forall j, (calls + 2 * i <> calls + 2 * j + 1)%nat
                /\ (j <> i -> calls + 2 * i <> calls + 2 * j
                              /\ calls + 2 * i + 1 <> calls + 2 * j + 1)%nat)
  /\ (baseAngleDeg i == -90 + inject_Z (Z.of_nat i) * (360 / 22))%Q
  /\ (randomR isMobile u1 == (u1 - 0.5) * (if isMobile then 4 else 8))%Q
  /\ (if isMobile then (-4 <= randomR isMobile u1 <= 4)%Q
      else (-8 <= randomR isMobile u1 <= 8)%Q)
  /\ (randomAngle u2 == (u2 - 0.5) * 2)%Q
  /\ (-1 <= randomAngle u2 <= 1)%Q
  /\ (finalRadius isMobile u1 == (if isMobile then 115 else 240) + randomR isMobile u1)%Q
  /\ finalAngleRad i u2 = (Q2R (baseAngleDeg i + randomAngle u2) * (PI / 180))%R
  /\ x slot = (cos (finalAngleRad i u2) * Q2R (finalRadius isMobile u1))%R
  /\ y slot = (sin (finalAngleRad i u2) * Q2R (finalRadius isMobile u1))%R
  /\ (angle slot == baseAngleDeg i + 90 + randomAngle u2)%Q
  /\ z slot = i.
Proof.
  intros Hu Hi u1 u2 slot.
  pose proof (randomR_range isMobile u1 (Hu _)) as HR.
  pose proof (randomAngle_range u2 (Hu _)) as HA.
  split; [|split; [|split; [|split; [|split; [|split; [|split; [|split; [|split]]]]]]]].
  - unfold computeLayout. rewrite (nth_error_map_seq _ totalCards i Hi). reflexivity.
  - intros j. split; [lia|]. intros Hj. split; lia.
  - reflexivity.
  - reflexivity.
  - destruct isMobile; destruct HR; split; lra.
  - reflexivity.
  - destruct HA; split; lra.
  - unfold finalRadius, radius. destruct isMobile; reflexivity.
  - unfold finalAngleRad. rewrite Q2R_plus. field.
  - repeat split; reflexivity.
Qed.

End Layout.

Lemma FULL_DECK_length : List.length FULL_DECK = 78%nat.
Proof. reflexivity. Qed.

Lemma FULL_DECK_NoDup : NoDup FULL_DECK.
Proof.
  assert (H : forall l : list string,
             (fix distinct (l : list string) : bool :=
                match l with
                | [] => true
                | a :: l' => negb (inb a l') && distinct l'
                end) l = true -> NoDup l).
  { induction l as [|a l IH]; intros H; [constructor|].
    apply andb_true_iff in H as [Ha Hl]. constructor; [|exact (IH Hl)].
    apply negb_true_iff in Ha. intros Hin.
    assert (E : inb a l = true).
    { unfold inb. apply existsb_exists. exists a. split; [exact Hin|apply String.eqb_refl]. }
    congruence. }
  apply H. vm_compute. reflexivity.
Qed.

Section Draw.

Variable Math_random : nat -> Q.

(** C5.  In a reachable world with fewer than three cards, with
    draws that are Numbers in [0, 1), an accepted selection of the
    slot [index] appends one card.  Its name is the entry [k] of the
    78 distinct entries of the deck, where [k] is the floor of the
    Number nearest to 78 times the next draw.  Each entry is drawn on
    an interval of draws of length 1/78, up to the rounding of the
    product: the entry [j] is drawn at every draw from j/78 to less
    than (j+1)/78 - 2^-53, and at no draw outside j/78 - 2^-53 to
    (j+1)/78; the cards already drawn play no part, so a name can
    come again.  It is reversed exactly when the draw after that one
    exceeds the Number [0.8], which lies 2^-52/5 above 4/5: among
    the Numbers these are the draws above 4/5 other than that one,
    an interval of length 0.2 less 2^-52/5.  It carries the slot and
    no image. *)
Theorem handleCardSelect_draws (w : World) (index : nat) (w' : World) :
  reachable Math_random w ->
  unitDraws Math_random ->
  numberDraws Math_random ->
  step Math_random w (Select index) = Some w' ->
  (List.length (selectedCards (state w)) < 3)%nat ->
  let u1 := Math_random (calls w) in
  let u2 := Math_random (S (calls w)) in
  let k := drawIndex FULL_DECK u1 in
  (List.length FULL_DECK = 78%nat /\ NoDup FULL_DECK)
  /\ (0 <= k < 78)%Z
  /\ (inject_Z k / 78 - (1 # 2 ^ 53) < u1)%Q /\ (u1 < (inject_Z k + 1) / 78)%Q
  /\ (forall (j : Z) (u : Q),
        (0 <= j < 78)%Z ->
        (inject_Z j / 78 <= u)%Q -> (u < (inject_Z j + 1) / 78 - (1 # 2 ^ 53))%Q ->
        drawIndex FULL_DECK u = j)
  /\ selectedCards (state w') =
     (selectedCards (state w)
      ++ [{| name := nth (Z.to_nat k) FULL_DECK ""; isReversed := drawReversed u2;
             id := index; imageUrl := None |}])%list
  /\ (drawReversed u2 = true <-> (toNumber 0.8 < u2)%Q)
  /\ ((0.8 < u2)%Q <-> (toNumber 0.8 <= u2)%Q)
  /\ (toNumber 0.8 == 0.8 + (1 # 5) * (1 # 2 ^ 52))%Q
  /\ (1 - 0.8 == 0.2)%Q.
Proof.
  intros Hr Hu Hn Hstep Hlen u1 u2 k.
  pose proof (reachable_Good Math_random w Hr) as G.
  pose proof (drawIndex_range u1 (Hn _) (proj1 (Hu _)) (proj2 (Hu _))) as Hk.
  destruct (drawIndex_interval u1 (proj1 (Hu _)) (proj2 (Hu _))) as [Hlo Hhi].
  fold k in Hk, Hlo, Hhi.
  split; [split; [exact FULL_DECK_length | exact FULL_DECK_NoDup]|].
  split; [exact Hk|]. split; [exact Hlo|]. split; [exact Hhi|].
  split; [intros j u; apply drawIndex_unique|].
  split; [|split; [apply drawReversed_spec|
                   split; [exact (above_0_8 u2 (Hn _) (proj1 (Hu _)) (proj2 (Hu _)))|
                           split; [vm_compute|]; reflexivity]]].
  destruct (offered w (Select index)) eqn:Ho;
    [|unfold step in Hstep; rewrite Ho in Hstep; discriminate].
  rewrite (step_Select Math_random w index Ho) in Hstep.
  destruct (Nat.leb_spec 3 (List.length (selectedCards (state w)))) as [Hfull|_]; [lia|].
  injection Hstep as <-. cbn [state selectedCards]. do 3 f_equal.
  rewrite (good_deck _ _ G). unfold drawName. fold u1. fold k.
  destruct (Z.ltb_spec k 0) as [Hneg|_]; [lia|].
  destruct (nth_error FULL_DECK (Z.to_nat k)) as [n|] eqn:E.
  - symmetry. apply nth_error_nth. exact E.
  - apply nth_error_None in E. rewrite FULL_DECK_length in E. lia.
Qed.

End Draw.

(* ================================================================= *)
(** ** The deck catalogue *)




Example toRoman_samples :
  map toRoman [0; 4; 9; 14; 21; 1994]%Z = ["0"; "IV"; "IX"; "XIV"; "XXI"; "MCMXCIV"].
Proof. reflexivity. Qed.

Example trim_samples :
  map JsString.trim [""; "   "; "  a b  "; "　我　"] = [""; ""; "a b"; "我"].
Proof. reflexivity. Qed.

Lemma inb_In (x : string) (l : list string) : inb x l = true <-> In x l.
Proof.
  unfold inb. rewrite existsb_exists. split.
  - intros [y [Hin E]]. apply String.eqb_eq in E. subst. exact Hin.
  - intros Hin. exists x. split; [exact Hin | apply String.eqb_refl].
Qed.

Lemma nth_error_combine_seq {A} (l : list A) (a k : nat) (x : A) :
  nth_error l k = Some x -> In ((a + k)%nat, x) (combine (seq a (List.length l)) l).
Proof.
  revert a k. induction l as [|y l IH]; intros a [|k] H; simpl in H; try discriminate.
  - injection H as ->. left. f_equal. lia.
  - right. replace (a + S k)%nat with (S a + k)%nat by lia. apply IH. exact H.
Qed.

Lemma majors_ok :
  forallb (fun kn => majorOk (fst kn) (snd kn))
          (combine (seq 0 (List.length MAJOR_ARCANA)) MAJOR_ARCANA) = true.
Proof. vm_compute. reflexivity. Qed.

Lemma minors_ok : forallb (fun s => forallb (minorOk s) RANKS) SUITS = true.
Proof. vm_compute. reflexivity. Qed.

Lemma major_metadata (k : nat) (name : string) :
  nth_error MAJOR_ARCANA k = Some name -> majorOk k name = true.
Proof.
  intros H. pose proof majors_ok as Hall. rewrite forallb_forall in Hall.
  exact (Hall (k, name) (nth_error_combine_seq MAJOR_ARCANA 0 k name H)).
Qed.

Lemma minor_metadata (s rank : string) :
  In s SUITS -> In rank RANKS -> minorOk s rank = true.
Proof.
  intros Hs Hr. pose proof minors_ok as Hall. rewrite forallb_forall in Hall.
  specialize (Hall s Hs). rewrite forallb_forall in Hall. exact (Hall rank Hr).
Qed.

(** C10.  [getCardMetadata] is a function, defined on every string.
    On the 78 entries of the deck: [isMajor] holds exactly for the 22
    major entries; the [k]-th major entry has the numeral of [k]
    (0, I, ..., XXI), which is not empty, and the suit Major; every
    other entry is [rank of suit] for one of the 14 ranks and 4
    suits, has the empty numeral and has the first word of its suit
    (Wands, Cups, Swords, Pentacles) as suit. *)
Theorem getCardMetadata_classifies_deck (name : string) :
  In name FULL_DECK ->
  let m := getCardMetadata name in
  (List.length MAJOR_ARCANA = 22%nat /\ List.length FULL_DECK = 78%nat)
  /\ (isMajor m = true <-> In name MAJOR_ARCANA)
  /\ (forall k, nth_error MAJOR_ARCANA k = Some name ->
                number m = nth k NUMERALS "" /\ number m <> "" /\ suit m = "Major")
  /\ (~ In name MAJOR_ARCANA ->
      number m = ""
      /\ exists rank s, In rank RANKS /\ In s SUITS /\ name = rank ++ " of " ++ s
                        /\ suit m = JsString.firstWord s /\ In (suit m) SUIT_NAMES).
Proof.
  intros Hin m.
  assert (Hmajor : In name MAJOR_ARCANA -> isMajor (getCardMetadata name) = true).
  { intros H. apply In_nth_error in H. destruct H as [k Hk].
    pose proof (major_metadata k name Hk) as Hok. unfold majorOk in Hok.
    repeat (apply andb_true_iff in Hok as [Hok ?]). exact Hok. }
  assert (Hminor : ~ In name MAJOR_ARCANA ->
                   exists rank s, In rank RANKS /\ In s SUITS /\ name = rank ++ " of " ++ s).
  { intros Hn. unfold FULL_DECK in Hin. apply in_app_or in Hin.
    destruct Hin as [Hin|Hin]; [contradiction|].
    apply in_flat_map in Hin. destruct Hin as [s [Hs Hin]].
    apply in_map_iff in Hin. destruct Hin as [rank [E Hr]].
    exists rank, s. auto. }
  split; [split; reflexivity|]. split; [|split].
  - split; [|exact Hmajor].
    intros Htrue. destruct (inb name MAJOR_ARCANA) eqn:E; [apply inb_In; exact E|].
    assert (Hn : ~ In name MAJOR_ARCANA).
    { intros H. apply inb_In in H. congruence. }
    destruct (Hminor Hn) as [rank [s [Hr [Hs ->]]]].
    pose proof (minor_metadata s rank Hs Hr) as Hok. unfold minorOk in Hok.
    repeat (apply andb_true_iff in Hok as [Hok ?]).
    apply negb_true_iff in Hok. unfold m in Htrue. congruence.
  - intros k Hk. pose proof (major_metadata k name Hk) as Hok. unfold majorOk in Hok.
    apply andb_true_iff in Hok as [Hok Hsuit].
    apply andb_true_iff in Hok as [Hok Hne].
    apply andb_true_iff in Hok as [_ Hnum].
    apply String.eqb_eq in Hnum, Hsuit. fold m in Hnum, Hsuit, Hne.
    split; [exact Hnum|]. split; [|exact Hsuit].
    intros E. rewrite E in Hne. discriminate.
  - intros Hn. destruct (Hminor Hn) as [rank [s [Hr [Hs E]]]].
    pose proof (minor_metadata s rank Hs Hr) as Hok. unfold minorOk in Hok.
    rewrite <- E in Hok. fold m in Hok.
    apply andb_true_iff in Hok as [Hok _].
    apply andb_true_iff in Hok as [Hok Hname].
    apply andb_true_iff in Hok as [Hok Hsuit].
    apply andb_true_iff in Hok as [_ Hnum].
    apply String.eqb_eq in Hnum, Hsuit. apply inb_In in Hname.
    split; [exact Hnum|]. exists rank, s. auto.
Qed.

(* ================================================================= *)
(** ** The sample runs *)

Lemma sampleDraws_unit : unitDraws sampleDraws.
Proof.
  intros n. unfold sampleDraws.
  destruct (n <? 88)%nat; [split; lra|].
  destruct (n =? 138)%nat; split; lra.
Qed.

Lemma sampleDraws_number : numberDraws sampleDraws.
Proof.
  intros n. unfold sampleDraws.
  destruct (n <? 88)%nat; [reflexivity|].
  destruct (n =? 138)%nat; reflexivity.
Qed.

Lemma sample_reachable (es : list Event) :
  reachable sampleDraws (runFrom sampleDraws sampleMount es).
Proof. apply runFrom_reachable. apply reachable_mount. Qed.

(** C1, counterexample.  The first session draws the Four of Cups at
    the slot 0 and is reset while its artwork is in flight; the second
    session draws Death at the slot 0.  When the artwork of the first
    session arrives, it becomes the image of the second session's
    card. *)
Lemma stale_artwork_reaches_new_session :
  option_map (fun w => (gameState (state w), selectedCards (state w), nth_error (pending w) 0))
             (run sampleDraws sampleMount sessionB)
  = Some (Selecting, [death], Some (ImageRequest (fourOfCups 0)))
  /\ option_map (fun w => (gameState (state w), selectedCards (state w)))
                (run sampleDraws sampleMount (sessionB ++ [lateArtwork]))
     = Some (Selecting,
             [{| name := "Death (死神)"; isReversed := false; id := 0;
                 imageUrl := Some "data:image/png;base64,QUJD" |}]).
Proof. split; vm_compute; reflexivity. Qed.

(** C2, counterexample.  In [Selecting], at width 1000, the slot 0 is
    rotated by -1 degree; after a resize to 800, which keeps the
    display full, it is rotated by 0 degrees: the jitter was drawn
    again. *)
Lemma resize_redraws_layout :
  option_map (fun w => (isMobile (state w), layoutSeed (state w),
                        option_map (fun slot => Qred (angle slot)) (nth_error (cardLayout w) 0)))
             (run sampleDraws sampleMount toSelecting)
  = Some (false, 1%nat, Some (-1)%Q)
  /\ option_map (fun w => (isMobile (state w), layoutSeed (state w),
                           option_map (fun slot => Qred (angle slot))
                                      (nth_error (cardLayout w) 0)))
                (run sampleDraws sampleMount (toSelecting ++ [Resize 800]))
     = Some (false, 1%nat, Some 0%Q).
Proof. split; vm_compute; reflexivity. Qed.

(** C4, counterexample.  After a whole session and its reset the
    layout is the one of the session that ended, with its 22 slots,
    and [layoutSeed] is 1, not its initial 0. *)
Lemma resetGame_keeps_layout :
  option_map (fun w => (gameState (state w), layoutSeed (state w),
                        List.length (cardLayout w)))
             (run sampleDraws sampleMount (sessionA ++ [ConsultAgain]))
  = Some (Input, 1%nat, 22%nat)
  /\ layoutSeed initialState = 0%nat
  /\ option_map cardLayout (run sampleDraws sampleMount (sessionA ++ [ConsultAgain]))
     = option_map cardLayout (run sampleDraws sampleMount sessionA).
Proof. split; [|split]; vm_compute; reflexivity. Qed.

(** C9, counterexample.  The second session reaches its reading while
    the artwork request of the first session for the slot 0 is still
    pending.  In both orders that request ends second and the four
    requests of the second session end with the same answers; when
    the artwork of the card at the slot 0 ends first, that card is
    left with the image of the first session's request, and when the
    artwork of the card at the slot 1 ends first, with its own. *)
Lemma same_slot_artwork_later_one_stays :
  completions sampleDraws (runFrom sampleDraws sampleMount sessionB3) orderOne
  = Some [ deathJob; staleJob; cupsJob 1; cupsJob 2; narrativeJob ]
  /\ completions sampleDraws (runFrom sampleDraws sampleMount sessionB3) orderTwo
     = Some [ cupsJob 1; staleJob; deathJob; cupsJob 2; narrativeJob ]
  /\ option_map (fun v => map imageUrl (selectedCards (state v)))
                (run sampleDraws sampleMount (sessionB3 ++ orderOne))
     = Some [ Some "data:image/png;base64,QUJD"; Some "data:image/png;base64,R0hJ";
              Some "data:image/png;base64,R0hJ" ]
  /\ option_map (fun v => map imageUrl (selectedCards (state v)))
                (run sampleDraws sampleMount (sessionB3 ++ orderTwo))
     = Some [ Some "data:image/png;base64,REVG"; Some "data:image/png;base64,R0hJ";
              Some "data:image/png;base64,R0hJ" ].
Proof. split; [|split; [|split]]; vm_compute; reflexivity. Qed.

(** *** The theorems at the sample runs *)

(** C1 at the reset that ends the first sample session. *)
Lemma stale_results_after_reset_witness :
  step sampleDraws (runFrom sampleDraws sampleMount sessionA) ConsultAgain
  = Some (runFrom sampleDraws sampleMount (sessionA ++ [ConsultAgain]))
  /\ pending (runFrom sampleDraws sampleMount (sessionA ++ [ConsultAgain]))
     = pending (runFrom sampleDraws sampleMount sessionA).
Proof.
  assert (Hstep : step sampleDraws (runFrom sampleDraws sampleMount sessionA) ConsultAgain
                  = Some (runFrom sampleDraws sampleMount (sessionA ++ [ConsultAgain])))
    by (vm_compute; reflexivity).
  split; [exact Hstep|].
  exact (proj1 (proj1 (stale_results_after_reset sampleDraws _ _
                         (sample_reachable sessionA) Hstep))).
Defined.

(** C2 at a resize from 1000 to 800 during the first sample session. *)
Lemma cardLayout_recomputed_when_witness :
  step sampleDraws (runFrom sampleDraws sampleMount toSelecting) (Resize 800)
  = Some (runFrom sampleDraws sampleMount (toSelecting ++ [Resize 800]))
  /\ (calls (runFrom sampleDraws sampleMount toSelecting)
      <= calls (runFrom sampleDraws sampleMount (toSelecting ++ [Resize 800])))%nat.
Proof.
  assert (Hstep : step sampleDraws (runFrom sampleDraws sampleMount toSelecting) (Resize 800)
                  = Some (runFrom sampleDraws sampleMount (toSelecting ++ [Resize 800])))
    by (vm_compute; reflexivity).
  split; [exact Hstep|].
  exact (proj1 (cardLayout_recomputed_when sampleDraws _ _ _ Hstep)).
Defined.

(** C3 at the first slot of the first compact layout. *)
Lemma cardLayout_slot_geometry_witness :
  unitDraws sampleDraws /\ (0 < totalCards)%nat
  /\ nth_error (computeLayout sampleDraws true 0) 0
     = Some (layoutSlot true 0 (sampleDraws 0) (sampleDraws 1)).
Proof.
  assert (Hlt : (0 < totalCards)%nat) by (unfold totalCards; lia).
  split; [exact sampleDraws_unit|]. split; [exact Hlt|].
  exact (proj1 (cardLayout_slot_geometry sampleDraws true 0 0 sampleDraws_unit Hlt)).
Defined.

(** C5 at the first selection of the first sample session. *)
Lemma handleCardSelect_draws_witness :
  unitDraws sampleDraws /\ numberDraws sampleDraws
  /\ step sampleDraws (runFrom sampleDraws sampleMount toSelecting) (Select 0)
  = Some (runFrom sampleDraws sampleMount (toSelecting ++ [Select 0]))
  /\ (List.length (selectedCards (state (runFrom sampleDraws sampleMount toSelecting))) < 3)%nat
  /\ (0 <= drawIndex FULL_DECK
             (sampleDraws (calls (runFrom sampleDraws sampleMount toSelecting))) < 78)%Z.
Proof.
  assert (Hstep : step sampleDraws (runFrom sampleDraws sampleMount toSelecting) (Select 0)
                  = Some (runFrom sampleDraws sampleMount (toSelecting ++ [Select 0])))
    by (vm_compute; reflexivity).
  assert (Hlen : (List.length
                    (selectedCards (state (runFrom sampleDraws sampleMount toSelecting))) < 3)%nat)
    by (vm_compute; lia).
  split; [exact sampleDraws_unit|]. split; [exact sampleDraws_number|].
  split; [exact Hstep|]. split; [exact Hlen|].
  exact (proj1 (proj2 (handleCardSelect_draws sampleDraws _ 0 _
                         (sample_reachable toSelecting) sampleDraws_unit sampleDraws_number
                         Hstep Hlen))).
Defined.

(** C6 at the world of the first sample session with its three cards. *)
Lemma select_when_full_is_ignored_witness :
  (List.length (selectedCards (state (runFrom sampleDraws sampleMount toThreeCards))) <= 3)%nat.
Proof.
  exact (proj1 (select_when_full_is_ignored sampleDraws _ (sample_reachable toThreeCards))).
Defined.



(** C9 at the reading timer of the first sample session. *)
Lemma artwork_merge_order_independent_witness :
  nth_error (pending (runFrom sampleDraws sampleMount toThreeCards)) 0
  = Some (ReadingTimer sampleCards "我的感情运势如何？")
  /\ NoDup (map id sampleCards).
Proof.
  assert (Hk : nth_error (pending (runFrom sampleDraws sampleMount toThreeCards)) 0
               = Some (ReadingTimer sampleCards "我的感情运势如何？"))
    by (vm_compute; reflexivity).
  split; [exact Hk|].
  exact (proj1 (proj1 (artwork_merge_order_independent sampleDraws _ 0 _ _
                         (sample_reachable toThreeCards) Hk))).
Defined.

(** C10 at the first entry of the deck. *)
Lemma getCardMetadata_classifies_deck_witness :
  In "The Fool (愚者)" FULL_DECK
  /\ (isMajor (getCardMetadata "The Fool (愚者)") = true <-> In "The Fool (愚者)" MAJOR_ARCANA).
Proof.
  assert (Hin : In "The Fool (愚者)" FULL_DECK) by (left; reflexivity).
  split; [exact Hin|].
  exact (proj1 (proj2 (getCardMetadata_classifies_deck "The Fool (愚者)" Hin))).
Defined.

(* ================================================================= *)
(** ** Further properties of the helpers *)










Lemma indexOfFrom_range (i : Z) (arr : list string) (x : string) :
  (In x arr -> (i <= JsString.indexOfFrom i arr x < i + Z.of_nat (List.length arr))%Z)
  /\ (~ In x arr -> JsString.indexOfFrom i arr x = (-1)%Z).
Proof.
  revert i. induction arr as [|y arr IH]; intros i; cbn [JsString.indexOfFrom].
  - split; [intros []|reflexivity].
  - destruct (String.eqb_spec y x) as [E|N].
    + split; [intros _; cbn [List.length]; lia|]. intros H. exfalso. apply H. left. exact E.
    + destruct (IH (i + 1)%Z) as [IH1 IH2]. split.
      * intros [E|Hin]; [contradiction|]. specialize (IH1 Hin). cbn [List.length]. lia.
      * intros H. apply IH2. intros Hin. apply H. right. exact Hin.
Qed.

Lemma toRoman_majors_not_empty (index : Z) :
  (0 <= index < 22)%Z -> JsString.truthy (toRoman index) = true.
Proof.
  intros H.
  assert (Hall : forallb (fun k => JsString.truthy (toRoman (Z.of_nat k))) (seq 0 22) = true)
    by (vm_compute; reflexivity).
  rewrite forallb_forall in Hall.
  specialize (Hall (Z.to_nat index)). rewrite Z2Nat.id in Hall by lia.
  apply Hall. apply in_seq. lia.
Qed.

Lemma metadata_major (name : string) :
  existsb (fun m => JsString.includes name (JsString.firstWord m)) MAJOR_ARCANA = true ->
  isMajor (getCardMetadata name) = true
  /\ suit (getCardMetadata name) = "Major"
  /\ number (getCardMetadata name)
     = (if (JsString.indexOf MAJOR_ARCANA name =? -1)%Z then ""
        else toRoman (JsString.indexOf MAJOR_ARCANA name)).
Proof.
  intros H. unfold getCardMetadata. rewrite H.
  repeat match goal with
         | |- context [let '(a, b) := (if ?c then _ else _) in _] => destruct c
         end; repeat split.
Qed.

Lemma metadata_minor (name : string) :
  existsb (fun m => JsString.includes name (JsString.firstWord m)) MAJOR_ARCANA = false ->
  isMajor (getCardMetadata name) = false /\ number (getCardMetadata name) = "".
Proof.
  intros H. unfold getCardMetadata. rewrite H.
  repeat match goal with
         | |- context [let '(a, b) := (if ?c then _ else _) in _] => destruct c
         end; repeat split.
Qed.

(** X2.  On any string whatever, [getCardMetadata] gives a numeral
    exactly to the 22 major names: a string that is no major name has
    the empty numeral even when it is found major.  And it is found
    major exactly when it contains the first word of some major name;
    so every string that contains "The" is found major, and has the
    suit Major. *)
Theorem getCardMetadata_on_any_string (name : string) :
  let m := getCardMetadata name in
  (number m <> "" <-> In name MAJOR_ARCANA)
  /\ (In name MAJOR_ARCANA -> isMajor m = true)
  /\ (isMajor m = true <->
      exists major, In major MAJOR_ARCANA
                    /\ JsString.includes name (JsString.firstWord major) = true)
  /\ (JsString.includes name "The" = true -> isMajor m = true /\ suit m = "Major")
  /\ (isMajor m = false -> number m = "").
Proof.
  cbv zeta.
  assert (Hlisted : In name MAJOR_ARCANA ->
                    existsb (fun m => JsString.includes name (JsString.firstWord m))
                            MAJOR_ARCANA = true).
  { intros Hin. apply In_nth_error in Hin. destruct Hin as [k Hk].
    pose proof (major_metadata k name Hk) as Hok. unfold majorOk in Hok.
    repeat (apply andb_true_iff in Hok as [Hok _]).
    destruct (existsb _ MAJOR_ARCANA) eqn:E; [reflexivity|].
    destruct (metadata_minor name E) as [Hf _]. congruence. }
  destruct (existsb (fun m => JsString.includes name (JsString.firstWord m)) MAJOR_ARCANA)
    eqn:E.
  - destruct (metadata_major name E) as [Hm [Hs Hn]].
    split; [|split; [|split; [|split]]].
    + rewrite Hn. split.
      * intros Hne. destruct (indexOfFrom_range 0 MAJOR_ARCANA name) as [_ Habs].
        destruct (inb name MAJOR_ARCANA) eqn:Ei; [apply inb_In; exact Ei|].
        exfalso. apply Hne. unfold JsString.indexOf. rewrite Habs; [reflexivity|].
        intros Hin. apply inb_In in Hin. congruence.
      * intros Hin. destruct (indexOfFrom_range 0 MAJOR_ARCANA name) as [Hr _].
        specialize (Hr Hin). fold (JsString.indexOf MAJOR_ARCANA name) in Hr.
        change (Z.of_nat (List.length MAJOR_ARCANA)) with 22%Z in Hr.
        destruct (Z.eqb_spec (JsString.indexOf MAJOR_ARCANA name) (-1)) as [E1|_]; [lia|].
        pose proof (toRoman_majors_not_empty _ Hr) as Ht.
        intros Hempty. rewrite Hempty in Ht. discriminate.
    + intros _. exact Hm.
    + split; [|intros _; exact Hm].
      intros _. apply existsb_exists in E. exact E.
    + intros _. split; assumption.
    + intros Hf. congruence.
  - destruct (metadata_minor name E) as [Hm Hn].
    split; [|split; [|split; [|split]]].
    + split; [intros Hne; contradiction|].
      intros Hin. specialize (Hlisted Hin). discriminate.
    + intros Hin. specialize (Hlisted Hin). discriminate.
    + split; [intros Ht; congruence|].
      intros Hex. apply existsb_exists in Hex. congruence.
    + intros Hthe. exfalso.
      assert (Hex : existsb (fun m => JsString.includes name (JsString.firstWord m))
                            MAJOR_ARCANA = true).
      { apply existsb_exists. exists "The Fool (愚者)". split; [left; reflexivity|exact Hthe]. }
      congruence.
    + intros _. exact Hn.
Qed.

(** A string that only looks like a major name. *)
Example getCardMetadata_the_joker :
  let m := getCardMetadata "The Joker" in
  (isMajor m, number m, suit m, Icon m) = (true, "", "Major", Shield).
Proof. reflexivity. Qed.

Lemma getCardMetadata_on_any_string_witness :
  In "The Sun (太阳)" MAJOR_ARCANA /\ isMajor (getCardMetadata "The Sun (太阳)") = true.
Proof.
  assert (Hin : In "The Sun (太阳)" MAJOR_ARCANA) by (apply inb_In; reflexivity).
  split; [exact Hin|].
  exact (proj1 (proj2 (getCardMetadata_on_any_string "The Sun (太阳)")) Hin).
Defined.

(** X3.  On the 78 entries of the deck the substring tests choose the
    placeholder by the entry itself: the Sun, the Moon and the Star
    have their own icon, the Devil and the Tower the flame, the Fool
    and the World the crown, the 15 other major entries the shield;
    Wands and Cups both have the droplets, Swords the cloud,
    Pentacles the leaf.  The colours differ between any two entries
    exactly when their icons or their suits differ. *)
Theorem getCardMetadata_placeholder (name : string) :
  In name FULL_DECK ->
  Icon (getCardMetadata name) = deckIcon name
  /\ forall other, In other FULL_DECK ->
       (colorTheme (getCardMetadata name) = colorTheme (getCardMetadata other)
        <-> Icon (getCardMetadata name) = Icon (getCardMetadata other)
            /\ suit (getCardMetadata name) = suit (getCardMetadata other)).
Proof.
  intros Hin.
  pose (key := fun n => (Icon (getCardMetadata n), suit (getCardMetadata n))).
  pose (sameIcon := fun a b : IconName =>
                      match a, b with
                      | Star, Star | Sun, Sun | Moon, Moon | Flame, Flame | Crown, Crown
                      | Shield, Shield | Droplets, Droplets | Cloud, Cloud | Leaf, Leaf => true
                      | _, _ => false
                      end).
  pose (sameTheme := fun a b : ColorTheme =>
                       String.eqb (sky a) (sky b) && String.eqb (ground a) (ground b)
                       && String.eqb (accent a) (accent b)).
  assert (HsameIcon : forall a b, sameIcon a b = true <-> a = b).
  { intros a b. destruct a, b; simpl; split; congruence. }
  assert (HsameTheme : forall a b, sameTheme a b = true <-> a = b).
  { intros [s1 g1 a1] [s2 g2 a2]. unfold sameTheme. cbn [sky ground accent].
    rewrite !andb_true_iff, !String.eqb_eq. split.
    - intros [[-> ->] ->]. reflexivity.
    - intros E. injection E as -> -> ->. auto. }
  assert (Hicons : forallb (fun n => sameIcon (Icon (getCardMetadata n)) (deckIcon n))
                           FULL_DECK = true)
    by (vm_compute; reflexivity).
  assert (Hthemes :
            let ms := map getCardMetadata FULL_DECK in
            forallb (fun m =>
                       forallb (fun o =>
                                  Bool.eqb (sameTheme (colorTheme m) (colorTheme o))
                                           (sameIcon (Icon m) (Icon o)
                                            && String.eqb (suit m) (suit o)))
                               ms) ms = true)
    by (vm_compute; reflexivity).
  cbv zeta in Hthemes.
  rewrite forallb_forall in Hicons, Hthemes.
  split; [apply HsameIcon; exact (Hicons name Hin)|].
  intros other Ho.
  specialize (Hthemes (getCardMetadata name) (in_map getCardMetadata _ _ Hin)).
  rewrite forallb_forall in Hthemes.
  specialize (Hthemes (getCardMetadata other) (in_map getCardMetadata _ _ Ho)).
  apply eqb_prop in Hthemes.
  rewrite <- HsameTheme, Hthemes, andb_true_iff, HsameIcon, String.eqb_eq. reflexivity.
Qed.

Lemma getCardMetadata_placeholder_witness :
  In "The Tower (高塔)" FULL_DECK /\ Icon (getCardMetadata "The Tower (高塔)") = Flame.
Proof.
  assert (Hin : In "The Tower (高塔)" FULL_DECK) by (apply inb_In; reflexivity).
  split; [exact Hin|].
  exact (proj1 (getCardMetadata_placeholder "The Tower (高塔)" Hin)).
Defined.

(* ================================================================= *)
(** ** Further properties of the requests *)

(** X4.  [generateCardImage] answers with a URL exactly when the call
    resolved with a part that carries inline data: the URL is the
    fixed prefix followed by the data of the first such part, the
    parts before it carry none and the parts after it are not looked
    at.  The URL is never the empty string, and the name of the card
    plays no part in it. *)
Theorem generateCardImage_first_inline_data
        (cardName : string) (answer : Outcome ImageResponse) (url : string) :
  (generateCardImage cardName answer = Some url <->
   exists n data rest,
     answer = Resolved (repeat None n ++ Some data :: rest)%list
     /\ url = "data:image/png;base64," ++ data)
  /\ (generateCardImage cardName answer = Some url -> JsString.truthy url = true)
  /\ (forall otherName, generateCardImage otherName answer = generateCardImage cardName answer).
Proof.
  assert (Hfirst : forall parts,
             generateCardImage cardName (Resolved parts) = Some url <->
             exists n data rest,
               parts = (repeat None n ++ Some data :: rest)%list
               /\ url = "data:image/png;base64," ++ data).
  { induction parts as [|part parts IH].
    - split; [discriminate|]. intros [n [data [rest [E _]]]]. destruct n; discriminate.
    - destruct part as [d|].
      + cbn [generateCardImage find]. split.
        * intros E. injection E as <-. exists 0%nat, d, parts. split; reflexivity.
        * intros [n [data [rest [E ->]]]]. destruct n; [|discriminate].
          injection E as <- _. reflexivity.
      + change (generateCardImage cardName (Resolved (None :: parts)))
          with (generateCardImage cardName (Resolved parts)).
        rewrite IH. split.
        * intros [n [data [rest [-> ->]]]]. exists (S n), data, rest. split; reflexivity.
        * intros [n [data [rest [E ->]]]]. destruct n; [discriminate|].
          injection E as ->. exists n, data, rest. split; reflexivity. }
  split; [|split].
  - destruct answer as [parts|].
    + rewrite Hfirst. split.
      * intros [n [data [rest [-> ->]]]]. exists n, data, rest. split; reflexivity.
      * intros [n [data [rest [E ->]]]]. injection E as ->.
        exists n, data, rest. split; reflexivity.
    + split; [discriminate|]. intros [n [data [rest [E _]]]]. discriminate.
  - destruct answer as [parts|]; [|discriminate].
    intros H. apply Hfirst in H. destruct H as [n [data [rest [_ ->]]]]. reflexivity.
  - intros otherName. reflexivity.
Qed.

Lemma generateCardImage_first_inline_data_witness :
  generateCardImage "Death (死神)" (Resolved [None; Some "QUJD"; Some "REVG"])
  = Some "data:image/png;base64,QUJD"
  /\ JsString.truthy "data:image/png;base64,QUJD" = true.
Proof.
  assert (H : generateCardImage "Death (死神)" (Resolved [None; Some "QUJD"; Some "REVG"])
              = Some "data:image/png;base64,QUJD") by reflexivity.
  split; [exact H|].
  exact (proj1 (proj2 (generateCardImage_first_inline_data _ _ _)) H).
Defined.

(* ================================================================= *)
(** ** Further properties of the layout *)

Lemma computeLayout_In (Math_random : nat -> Q) (isMobile : bool) (calls : nat)
      (slot : LayoutSlot) :
  In slot (computeLayout Math_random isMobile calls) ->
  exists i, (i < totalCards)%nat
            /\ slot = layoutSlot isMobile i (Math_random (calls + 2 * i)%nat)
                                            (Math_random (calls + 2 * i + 1)%nat).
Proof.
  unfold computeLayout. intros H. apply in_map_iff in H. destruct H as [i [E Hi]].
  apply in_seq in Hi. exists i. split; [lia | symmetry; exact E].
Qed.

Lemma computeLayout_nth (Math_random : nat -> Q) (isMobile : bool) (calls i : nat)
      (slot : LayoutSlot) :
  nth_error (computeLayout Math_random isMobile calls) i = Some slot ->
  (i < totalCards)%nat
  /\ slot = layoutSlot isMobile i (Math_random (calls + 2 * i)%nat)
                                  (Math_random (calls + 2 * i + 1)%nat).
Proof.
  intros H.
  assert (Hi : (i < totalCards)%nat).
  { rewrite <- (computeLayout_length Math_random isMobile calls).
    apply nth_error_Some. congruence. }
  split; [exact Hi|].
  unfold computeLayout in H. rewrite (nth_error_map_seq _ totalCards i Hi) in H.
  congruence.
Qed.

Section Ring.

Variable Math_random : nat -> Q.

(** X5.  With draws in [0, 1), every slot of a layout lies on a
    circle around the anchor whose radius is at least 113 and below
    117 on a compact display, at least 236 and below 244 otherwise. *)
Theorem cardLayout_slots_on_a_ring (isMobile : bool) (calls : nat) (slot : LayoutSlot) :
  unitDraws Math_random ->
  In slot (computeLayout Math_random isMobile calls) ->
  exists r : Q,
    (if isMobile then (113 <= r < 117)%Q else (236 <= r < 244)%Q)
    /\ (x slot * x slot + y slot * y slot = Q2R r * Q2R r)%R.
Proof.
  intros Hu Hin. apply computeLayout_In in Hin. destruct Hin as [i [Hi ->]].
  set (u1 := Math_random (calls + 2 * i)%nat).
  set (u2 := Math_random (calls + 2 * i + 1)%nat).
  exists (finalRadius isMobile u1). split.
  - pose proof (randomR_range isMobile u1 (Hu _)) as HR.
    unfold finalRadius, radius. destruct isMobile; destruct HR; split; lra.
  - cbn [x y layoutSlot].
    set (a := finalAngleRad i u2). set (r := Q2R (finalRadius isMobile u1)).
    replace (cos a * r * (cos a * r) + sin a * r * (sin a * r))%R
      with (r * r * (Rsqr (sin a) + Rsqr (cos a)))%R by (unfold Rsqr; ring).
    rewrite sin2_cos2. ring.
Qed.

(** X6.  With draws in [0, 1), the jitter never swaps two slots: of
    two slots of a layout the later one is rotated further, by more
    than 360/22 - 2 degrees and by less than a full turn minus as
    much; and the z-order of a slot is its position. *)
Theorem cardLayout_keeps_the_order (isMobile : bool) (calls i j : nat) (si sj : LayoutSlot) :
  unitDraws Math_random ->
  (i < j)%nat ->
  nth_error (computeLayout Math_random isMobile calls) i = Some si ->
  nth_error (computeLayout Math_random isMobile calls) j = Some sj ->
  (360 / 22 - 2 < angle sj - angle si)%Q
  /\ (angle sj - angle si < 360 - (360 / 22 - 2))%Q
  /\ z si = i /\ z sj = j.
Proof.
  intros Hu Hij Hsi Hsj.
  apply computeLayout_nth in Hsi. destruct Hsi as [Hi ->].
  apply computeLayout_nth in Hsj. destruct Hsj as [Hj ->].
  cbn [angle z layoutSlot].
  destruct (Hu (calls + 2 * i + 1)%nat) as [Hi0 Hi1].
  destruct (Hu (calls + 2 * j + 1)%nat) as [Hj0 Hj1].
  set (ui := Math_random (calls + 2 * i + 1)%nat) in *.
  set (uj := Math_random (calls + 2 * j + 1)%nat) in *.
  assert (Hstep : (inject_Z (Z.of_nat i) + 1 <= inject_Z (Z.of_nat j))%Q).
  { change 1%Q with (inject_Z 1). rewrite <- inject_Z_plus. rewrite <- Zle_Qle. lia. }
  assert (Hlow : (0 <= inject_Z (Z.of_nat i))%Q).
  { change 0%Q with (inject_Z 0). rewrite <- Zle_Qle. lia. }
  assert (Hhigh : (inject_Z (Z.of_nat j) <= 21)%Q).
  { change 21%Q with (inject_Z 21). rewrite <- Zle_Qle. unfold totalCards in Hj. lia. }
  unfold rotation, baseAngleDeg, randomAngle.
  change angleStep with (360 * (1 # 22))%Q.
  unfold Qdiv. change (/ 22)%Q with (1 # 22)%Q.
  repeat split; lra.
Qed.

End Ring.

Lemma cardLayout_slots_on_a_ring_witness :
  unitDraws sampleDraws
  /\ In (layoutSlot true 0 (sampleDraws 0) (sampleDraws 1)) (computeLayout sampleDraws true 0)
  /\ exists r : Q,
       (113 <= r < 117)%Q
       /\ (x (layoutSlot true 0 (sampleDraws 0) (sampleDraws 1))
           * x (layoutSlot true 0 (sampleDraws 0) (sampleDraws 1))
           + y (layoutSlot true 0 (sampleDraws 0) (sampleDraws 1))
             * y (layoutSlot true 0 (sampleDraws 0) (sampleDraws 1))
           = Q2R r * Q2R r)%R.
Proof.
  assert (Hin : In (layoutSlot true 0 (sampleDraws 0) (sampleDraws 1))
                   (computeLayout sampleDraws true 0)) by (left; reflexivity).
  split; [exact sampleDraws_unit|]. split; [exact Hin|].
  exact (cardLayout_slots_on_a_ring sampleDraws true 0 _ sampleDraws_unit Hin).
Defined.

Lemma cardLayout_keeps_the_order_witness :
  unitDraws sampleDraws /\ (0 < 1)%nat
  /\ (360 / 22 - 2
      < angle (layoutSlot false 1 (sampleDraws 2) (sampleDraws 3))
        - angle (layoutSlot false 0 (sampleDraws 0) (sampleDraws 1)))%Q.
Proof.
  assert (Hlt : (0 < 1)%nat) by lia.
  split; [exact sampleDraws_unit|]. split; [exact Hlt|].
  exact (proj1 (cardLayout_keeps_the_order sampleDraws false 0 0 1 _ _
                  sampleDraws_unit Hlt eq_refl eq_refl)).
Defined.

(* ================================================================= *)
(** ** Further properties of the session *)

Lemma count_pos_nth (p : Task -> bool) (l : list Task) :
  (0 < count p l)%nat -> exists k t, nth_error l k = Some t /\ p t = true.
Proof.
  unfold count. induction l as [|a l IH]; simpl; [lia|].
  destruct (p a) eqn:E.
  - intros _. exists 0%nat, a. split; [reflexivity | exact E].
  - intros H. destruct (IH H) as [k [t [Hk Ht]]]. exists (S k), t. split; assumption.
Qed.

Section Shape.

Variable Math_random : nat -> Q.

(** X7.  In every reachable world the deck is the full deck, the
    layout has its 22 slots, the drawn cards come from distinct
    slots, and their number agrees with the lifecycle state: none in
    [Input] and [Shuffling], at most three in [Selecting], exactly
    three in [Reading]. *)
Theorem lifecycle_and_cards_agree (w : World) :
  reachable Math_random w ->
  deck (state w) = FULL_DECK
  /\ List.length (cardLayout w) = 22%nat
  /\ NoDup (map id (selectedCards (state w)))
  /\ match gameState (state w) with
     | Input | Shuffling => selectedCards (state w) = []
     | Selecting => (List.length (selectedCards (state w)) <= 3)%nat
     | Reading => List.length (selectedCards (state w)) = 3%nat
     end.
Proof.
  intros Hr. pose proof (reachable_Good Math_random w Hr) as G.
  split; [exact (good_deck _ _ G)|].
  split; [exact (reachable_layout_length Math_random w Hr)|].
  split; [exact (good_nodup _ _ G)|].
  destruct (gameState (state w)) eqn:E.
  - exact (good_input _ _ G E).
  - exact (good_shuffling _ _ G E).
  - exact (good_cards _ _ G).
  - exact (good_reading _ _ G E).
Qed.

(** X8.  In every reachable world the timers and the narrative
    request in flight are those of the present state and no others:
    one shuffle timer in [Shuffling] and none elsewhere; one reading
    timer in [Selecting] with three cards and none otherwise; one
    narrative request in [Reading] while [loadingReading] is on and
    none otherwise.  A timer is never scheduled twice. *)
Theorem pending_tasks_follow_the_state (w : World) :
  reachable Math_random w ->
  count isShuffleTimer (pending w)
  = (match gameState (state w) with Shuffling => 1 | _ => 0 end)%nat
  /\ count isReadingTimer (pending w)
     = (match gameState (state w) with
        | Selecting => if (List.length (selectedCards (state w)) =? 3)%nat then 1 else 0
        | _ => 0
        end)%nat
  /\ count isTextRequest (pending w)
     = (match gameState (state w) with
        | Reading => if loadingReading (state w) then 1 else 0
        | _ => 0
        end)%nat.
Proof.
  intros Hr. destruct (reachable_Good Math_random w Hr) as [_ _ _ _ _ _ Gst Grt Gtr _].
  rewrite Gst, Grt, Gtr. destruct (gameState (state w)); repeat split.
Qed.

(** X9.  A reachable session is never stuck.  In [Shuffling] the
    shuffle timer is pending and its firing leads to [Selecting].  In
    [Selecting] with three cards the reading timer is pending and its
    firing leads to [Reading].  In [Reading] either the reset is
    offered, or the narrative request is pending and, whatever its
    answer, the reset is offered once it has ended. *)
Theorem session_is_never_stuck (w : World) :
  reachable Math_random w ->
  match gameState (state w) with
  | Input => offered w Start = true
  | Shuffling =>
      exists k w', nth_error (pending w) k = Some ShuffleTimer
                   /\ step Math_random w (Complete k Fired) = Some w'
                   /\ gameState (state w') = Selecting
  | Selecting =>
      List.length (selectedCards (state w)) = 3%nat ->
      exists k cs q w', nth_error (pending w) k = Some (ReadingTimer cs q)
                        /\ step Math_random w (Complete k Fired) = Some w'
                        /\ gameState (state w') = Reading
  | Reading =>
      offered w ConsultAgain = true
      \/ exists k cs q,
           nth_error (pending w) k = Some (TextRequest cs q)
           /\ forall answer, exists w',
                step Math_random w (Complete k (TextAnswer answer)) = Some w'
                /\ offered w' ConsultAgain = true
  end.
Proof.
  intros Hr. destruct (reachable_Good Math_random w Hr) as [_ _ _ _ _ _ Gst Grt Gtr _].
  destruct (gameState (state w)) eqn:Eg; cbn [AppState_eqb andb] in *.
  - cbn [offered]. rewrite Eg. reflexivity.
  - destruct (count_pos_nth isShuffleTimer (pending w)) as [k [t [Hk Ht]]]; [lia|].
    destruct t; try discriminate.
    eexists k, _. split; [exact Hk|].
    split; [exact (step_Complete Math_random w k _ Fired shuffleDone Hk eq_refl)|].
    reflexivity.
  - intros H3. rewrite H3 in Grt. cbn in Grt.
    destruct (count_pos_nth isReadingTimer (pending w)) as [k [t [Hk Ht]]]; [lia|].
    destruct t; try discriminate.
    eexists k, newSelection, question0, _. split; [exact Hk|].
    split; [exact (step_Complete Math_random w k _ Fired
                     (readingDue newSelection question0) Hk eq_refl)|].
    cbn [state]. rewrite settle_readingTimer. reflexivity.
  - destruct (loadingReading (state w)) eqn:El.
    + right. destruct (count_pos_nth isTextRequest (pending w)) as [k [t [Hk Ht]]]; [lia|].
      destruct t; try discriminate.
      exists k, cards, userQuestion. split; [exact Hk|].
      intros answer. eexists. split.
      * exact (step_Complete Math_random w k _ (TextAnswer answer) (textDone answer)
                 Hk eq_refl).
      * cbn [offered state]. rewrite settle_text. cbn. rewrite Eg. reflexivity.
    + left. cbn [offered]. rewrite Eg, El. reflexivity.
Qed.

End Shape.

Lemma lifecycle_and_cards_agree_witness :
  List.length (cardLayout (runFrom sampleDraws sampleMount sessionA)) = 22%nat.
Proof.
  exact (proj1 (proj2 (lifecycle_and_cards_agree sampleDraws _ (sample_reachable sessionA)))).
Defined.

Lemma pending_tasks_follow_the_state_witness :
  count isShuffleTimer (pending (runFrom sampleDraws sampleMount toReading))
  = match gameState (state (runFrom sampleDraws sampleMount toReading)) with
    | Shuffling => 1%nat
    | _ => 0%nat
    end.
Proof.
  exact (proj1 (pending_tasks_follow_the_state sampleDraws _ (sample_reachable toReading))).
Defined.

Lemma session_is_never_stuck_witness :
  gameState (state (runFrom sampleDraws sampleMount toReading)) = Reading
  /\ (offered (runFrom sampleDraws sampleMount toReading) ConsultAgain = true
      \/ exists k cs q,
           nth_error (pending (runFrom sampleDraws sampleMount toReading)) k
           = Some (TextRequest cs q)
           /\ forall answer, exists w',
                step sampleDraws (runFrom sampleDraws sampleMount toReading)
                     (Complete k (TextAnswer answer)) = Some w'
                /\ offered w' ConsultAgain = true).
Proof.
  assert (E : gameState (state (runFrom sampleDraws sampleMount toReading)) = Reading)
    by (vm_compute; reflexivity).
  split; [exact E|].
  pose proof (session_is_never_stuck sampleDraws _ (sample_reachable toReading)) as H.
  rewrite E in H. exact H.
Defined.

(* ================================================================= *)
(** ** Further properties of the drawn cards *)

Lemma drawName_in_deck (u : Q) :
  isNumber u = true -> (0 <= u < 1)%Q -> In (drawName FULL_DECK u) FULL_DECK.
Proof.
  intros Hn Hu. pose proof (drawIndex_range u Hn (proj1 Hu) (proj2 Hu)) as Hk.
  unfold drawName.
  destruct (Z.ltb_spec (drawIndex FULL_DECK u) 0) as [Hneg|_]; [lia|].
  destruct (nth_error FULL_DECK (Z.to_nat (drawIndex FULL_DECK u))) as [n|] eqn:E.
  - exact (nth_error_In _ _ E).
  - apply nth_error_None in E. rewrite FULL_DECK_length in E. lia.
Qed.

Lemma generateCardImage_prefix (cardName : string) (answer : Outcome ImageResponse)
      (url : string) :
  generateCardImage cardName answer = Some url ->
  exists data, url = "data:image/png;base64," ++ data.
Proof.
  destruct answer as [parts|]; [|discriminate]. cbn [generateCardImage].
  destruct (find _ parts) as [[data|]|]; try discriminate.
  intros E. injection E as <-. exists data. reflexivity.
Qed.

Section Cards.

Variable Math_random : nat -> Q.

(** A property of cards that holds of every card when it is drawn
    and that the merge of an artwork keeps, holds of all the drawn
    cards of every reachable world. *)
Lemma reachable_cards (P : CardData -> Prop) :
  (forall w index,
      reachable Math_random w -> offered w (Select index) = true ->
      P {| name := drawName (deck (state w)) (Math_random (calls w));
           isReversed := drawReversed (Math_random (S (calls w)));
           id := index; imageUrl := None |}) ->
  (forall c target cardName answer url,
      P c -> generateCardImage cardName answer = Some url -> P (merge target url c)) ->
  forall w, reachable Math_random w -> Forall P (selectedCards (state w)).
Proof.
  intros Hdraw Hmerge w Hr.
  induction Hr as [innerWidth|w e w' Hr IH Hstep].
  - unfold mount. rewrite commit_state. run_handler. fields. constructor.
  - destruct e as [innerWidth|value| |index| |k c].
    + rewrite step_Resize in Hstep. injection Hstep as <-. cbv zeta.
      destruct (innerWidth =? screenWidth (state w))%Z; exact IH.
    + destruct (offered w (Change value)) eqn:Ho;
        [|unfold step in Hstep; rewrite Ho in Hstep; discriminate].
      rewrite (step_Change Math_random w value Ho) in Hstep. injection Hstep as <-.
      exact IH.
    + destruct (offered w Start) eqn:Ho;
        [|unfold step in Hstep; rewrite Ho in Hstep; discriminate].
      cbn [offered] in Ho. apply AppState_eqb_eq in Ho.
      destruct (JsString.truthy (JsString.trim (question (state w)))) eqn:Hq.
      * rewrite (step_Start_accepted Math_random w Ho Hq) in Hstep.
        injection Hstep as <-. exact IH.
      * rewrite (step_Start_blank Math_random w Ho Hq) in Hstep.
        injection Hstep as <-. exact IH.
    + destruct (offered w (Select index)) eqn:Ho;
        [|unfold step in Hstep; rewrite Ho in Hstep; discriminate].
      rewrite (step_Select Math_random w index Ho) in Hstep.
      destruct (3 <=? List.length (selectedCards (state w)))%nat;
        injection Hstep as <-; [exact IH|].
      cbn [state selectedCards]. apply Forall_app. split; [exact IH|].
      constructor; [|constructor]. exact (Hdraw w index Hr Ho).
    + destruct (offered w ConsultAgain) eqn:Ho;
        [|unfold step in Hstep; rewrite Ho in Hstep; discriminate].
      unfold step in Hstep. rewrite Ho in Hstep. cbn [handler] in Hstep.
      rewrite commit_resetGame in Hstep. injection Hstep as <-. constructor.
    + apply step_Complete_inv in Hstep. destruct Hstep as [t [_ ->]]. cbn [state].
      destruct t, c; try exact IH.
      * rewrite settle_readingTimer. exact IH.
      * rewrite settle_image.
        destruct (generateCardImage (name card) answer) as [url|] eqn:E; [|exact IH].
        cbn [selectedCards]. apply Forall_map.
        revert IH. apply Forall_impl. intros c Hc.
        exact (Hmerge c (id card) (name card) answer url Hc E).
      * rewrite settle_text. exact IH.
Qed.

(** X10.  With draws that are Numbers in [0, 1), every drawn card of
    every reachable world names an entry of the deck (never an
    undefined one: the product of the largest Number below 1 and 78
    is rounded to a Number below 78), sits at one of the 22 slots,
    and has either no image or a data URL that starts with the fixed
    prefix. *)
Theorem drawn_cards_are_well_formed (w : World) (c : CardData) :
  unitDraws Math_random ->
  numberDraws Math_random ->
  reachable Math_random w ->
  In c (selectedCards (state w)) ->
  In (name c) FULL_DECK
  /\ (id c < 22)%nat
  /\ (forall url, imageUrl c = Some url -> exists data, url = "data:image/png;base64," ++ data).
Proof.
  intros Hu Hnum Hr Hin.
  pose (P := fun c : CardData =>
               In (name c) FULL_DECK /\ (id c < 22)%nat
               /\ (forall url, imageUrl c = Some url ->
                               exists data, url = "data:image/png;base64," ++ data)).
  assert (Hall : Forall P (selectedCards (state w))).
  { apply reachable_cards; [| |exact Hr].
    - intros v index Hv Ho. unfold P. cbn [name id imageUrl].
      rewrite (good_deck _ _ (reachable_Good Math_random v Hv)).
      split; [apply drawName_in_deck; [apply Hnum|apply Hu]|]. split; [|discriminate].
      cbn [offered] in Ho. apply andb_true_iff in Ho as [Ho _].
      apply andb_true_iff in Ho as [_ Ho]. apply Nat.ltb_lt in Ho.
      rewrite (reachable_layout_length Math_random v Hv) in Ho. exact Ho.
    - intros c0 target cardName answer url [Hn [Hi Hurl]] Hgen. unfold P, merge.
      destruct (id c0 =? target)%nat; cbn [name id imageUrl]; [|tauto].
      split; [exact Hn|]. split; [exact Hi|].
      intros url' E. injection E as <-.
      exact (generateCardImage_prefix cardName answer url Hgen). }
  rewrite Forall_forall in Hall. exact (Hall c Hin).
Qed.

End Cards.

Lemma drawn_cards_are_well_formed_witness :
  unitDraws sampleDraws /\ numberDraws sampleDraws
  /\ In death (selectedCards (state (runFrom sampleDraws sampleMount sessionB)))
  /\ In (name death) FULL_DECK.
Proof.
  assert (Hin : In death (selectedCards (state (runFrom sampleDraws sampleMount sessionB))))
    by (vm_compute; left; reflexivity).
  split; [exact sampleDraws_unit|]. split; [exact sampleDraws_number|]. split; [exact Hin|].
  exact (proj1 (drawn_cards_are_well_formed sampleDraws _ death sampleDraws_unit
                  sampleDraws_number (sample_reachable sessionB) Hin)).
Defined.

(* ================================================================= *)
(** ** Further properties of what is shown and asked *)

Lemma map_face_merge (target : nat) (url : string) (l : list CardData) :
  map face (map (merge target url) l) = map face l.
Proof.
  rewrite map_map. apply map_ext. intros c. unfold merge, face.
  destruct (id c =? target)%nat; reflexivity.
Qed.

Lemma no_timer_nor_text (p : list Task) (cs : list CardData) (q : string) :
  count isReadingTimer p = 0%nat -> count isTextRequest p = 0%nat ->
  In (ReadingTimer cs q) p \/ In (TextRequest cs q) p -> False.
Proof.
  intros H1 H2 [Hin|Hin].
  - pose proof (count_zero_In _ _ _ H1 Hin) as E. discriminate.
  - pose proof (count_zero_In _ _ _ H2 Hin) as E. discriminate.
Qed.

Lemma filter_andb {A} (f g : A -> bool) (l : list A) :
  filter (fun a => f a && g a) l = filter f (filter g l).
Proof.
  induction l as [|a l IH]; simpl; [reflexivity|].
  destruct (g a); simpl; rewrite ?andb_true_r, ?andb_false_r.
  - destruct (f a); rewrite IH; reflexivity.
  - exact IH.
Qed.

Lemma filter_out_one (a : nat) (l : list nat) :
  NoDup l -> In a l ->
  S (List.length (filter (fun i => negb (a =? i)%nat) l)) = List.length l.
Proof.
  induction 1 as [|b l Hb Hl IH]; intros Hin; [destruct Hin|].
  cbn [filter]. destruct (Nat.eqb_spec a b) as [E|N]; cbn [negb List.length].
  - subst b. f_equal.
    assert (Hid : forall l', ~ In a l' -> filter (fun i => negb (a =? i)%nat) l' = l').
    { induction l' as [|x l' IHl]; intros Hn; [reflexivity|]. cbn [filter].
      destruct (Nat.eqb_spec a x) as [E|_]; [exfalso; apply Hn; left; auto|].
      cbn [negb]. f_equal. apply IHl. intros H. apply Hn. right. exact H. }
    rewrite Hid by exact Hb. reflexivity.
  - f_equal. apply IH. destruct Hin as [E|Hin]; [congruence | exact Hin].
Qed.

Lemma filter_out_ids (cards : list CardData) (l : list nat) :
  NoDup l -> NoDup (map id cards) -> incl (map id cards) l ->
  (List.length (filter (fun i => negb (existsb (fun c => (id c =? i)%nat) cards)) l)
   + List.length cards)%nat = List.length l.
Proof.
  intros Hl. induction cards as [|c cards IH]; intros Hnd Hincl.
  - cbn [existsb negb List.length].
    replace (filter (fun _ => true) l) with l; [lia|].
    clear. induction l as [|a l IHl]; simpl; [reflexivity | rewrite <- IHl; reflexivity].
  - cbn [map] in Hnd, Hincl. inversion Hnd as [|? ? Hc Hnd']; subst.
    assert (Hincl' : incl (map id cards) l).
    { intros x Hx. apply Hincl. right. exact Hx. }
    specialize (IH Hnd' Hincl').
    assert (E : filter (fun i => negb (existsb (fun c0 => (id c0 =? i)%nat) (c :: cards))) l
                = filter (fun i => negb (id c =? i)%nat)
                         (filter (fun i => negb (existsb (fun c0 => (id c0 =? i)%nat) cards))
                                 l)).
    { rewrite <- filter_andb. apply filter_ext. intros i. cbn [existsb].
      apply negb_orb. }
    rewrite E.
    pose proof (filter_out_one (id c)
                  (filter (fun i => negb (existsb (fun c0 => (id c0 =? i)%nat) cards)) l))
      as Hone.
    cbn [List.length].
    rewrite <- Hone in IH; [lia| |].
    + apply NoDup_filter. exact Hl.
    + apply filter_In. split; [apply Hincl; left; reflexivity|].
      apply negb_true_iff. destruct (existsb _ cards) eqn:Ex; [|reflexivity].
      exfalso. apply Hc. apply existsb_exists in Ex. destruct Ex as [c0 [Hin0 E0]].
      apply Nat.eqb_eq in E0. rewrite <- E0. apply in_map. exact Hin0.
Qed.

Section Shown.

Variable Math_random : nat -> Q.

(** X11.  In every reachable world, the reading timer and the
    narrative request in flight are about what the page shows: the
    question they carry is the question of the state, and the cards
    they carry are the drawn cards, image apart. *)
Theorem narrative_is_asked_about_what_is_shown
        (w : World) (cs : list CardData) (q : string) :
  reachable Math_random w ->
  In (ReadingTimer cs q) (pending w) \/ In (TextRequest cs q) (pending w) ->
  q = question (state w) /\ map face cs = map face (selectedCards (state w)).
Proof.
  intros Hr. revert cs q.
  induction Hr as [innerWidth|w e w' Hr IH Hstep]; intros cs q Hin.
  - exfalso. unfold mount in Hin. rewrite commit_pending in Hin.
    destruct Hin as [[]|[]].
  - destruct (reachable_Good Math_random w Hr) as [_ Gc _ _ _ _ _ Grt Gtr _].
    destruct e as [innerWidth|value| |index| |k c].
    + rewrite step_Resize in Hstep. injection Hstep as <-. cbv zeta in *.
      destruct (innerWidth =? screenWidth (state w))%Z; exact (IH cs q Hin).
    + destruct (offered w (Change value)) eqn:Ho;
        [|unfold step in Hstep; rewrite Ho in Hstep; discriminate].
      rewrite (step_Change Math_random w value Ho) in Hstep. injection Hstep as <-.
      cbn [offered] in Ho. apply AppState_eqb_eq in Ho. rewrite Ho in *.
      cbn [AppState_eqb andb pending] in *.
      exfalso. exact (no_timer_nor_text _ cs q Grt Gtr Hin).
    + destruct (offered w Start) eqn:Ho;
        [|unfold step in Hstep; rewrite Ho in Hstep; discriminate].
      cbn [offered] in Ho. apply AppState_eqb_eq in Ho.
      destruct (JsString.truthy (JsString.trim (question (state w)))) eqn:Hq.
      * rewrite (step_Start_accepted Math_random w Ho Hq) in Hstep.
        injection Hstep as <-. rewrite Ho in *. cbn [AppState_eqb andb pending] in *.
        exfalso. apply (no_timer_nor_text (pending w) cs q Grt Gtr).
        destruct Hin as [Hin|Hin]; apply in_app_or in Hin;
          destruct Hin as [Hin|[Hin|[]]]; try discriminate; auto.
      * rewrite (step_Start_blank Math_random w Ho Hq) in Hstep.
        injection Hstep as <-. exact (IH cs q Hin).
    + destruct (offered w (Select index)) eqn:Ho;
        [|unfold step in Hstep; rewrite Ho in Hstep; discriminate].
      rewrite (step_Select Math_random w index Ho) in Hstep.
      cbn [offered] in Ho. apply andb_true_iff in Ho as [Ho _].
      apply andb_true_iff in Ho as [Ho _]. apply AppState_eqb_eq in Ho.
      destruct (Nat.leb_spec 3 (List.length (selectedCards (state w)))) as [Hfull|Hroom];
        injection Hstep as <-; [exact (IH cs q Hin)|].
      rewrite Ho in *. cbn [AppState_eqb andb] in *.
      assert (E : (List.length (selectedCards (state w)) =? 3)%nat = false)
        by (apply Nat.eqb_neq; lia).
      rewrite E in Grt. cbn [pending state selectedCards question] in *.
      destruct Hin as [Hin|Hin]; apply in_app_or in Hin; destruct Hin as [Hin|Hin].
      * exfalso. exact (no_timer_nor_text _ cs q Grt Gtr (or_introl Hin)).
      * destruct (List.length _ =? 3)%nat; [|destruct Hin].
        destruct Hin as [Hin|[]]. injection Hin as <- <-. split; reflexivity.
      * exfalso. exact (no_timer_nor_text _ cs q Grt Gtr (or_intror Hin)).
      * destruct (List.length _ =? 3)%nat; [|destruct Hin].
        destruct Hin as [Hin|[]]. discriminate.
    + destruct (offered w ConsultAgain) eqn:Ho;
        [|unfold step in Hstep; rewrite Ho in Hstep; discriminate].
      unfold step in Hstep. rewrite Ho in Hstep. cbn [handler] in Hstep.
      rewrite commit_resetGame in Hstep. injection Hstep as <-.
      cbn [offered] in Ho. apply andb_true_iff in Ho as [Ho Hl].
      apply AppState_eqb_eq in Ho. apply negb_true_iff in Hl.
      rewrite Ho, Hl in *. cbn [AppState_eqb andb pending] in *.
      exfalso. exact (no_timer_nor_text _ cs q Grt Gtr Hin).
    + apply step_Complete_inv in Hstep. destruct Hstep as [t [Hk ->]].
      cbn [state pending] in *.
      assert (Hold : In (ReadingTimer cs q) (removeNth k (pending w))
                     \/ In (TextRequest cs q) (removeNth k (pending w)) ->
                     q = question (state w)
                     /\ map face cs = map face (selectedCards (state w))).
      { intros [H|H]; apply In_removeNth in H; apply IH; auto. }
      assert (Hface : question (settle (state w) (t, c)) = question (state w)
                      /\ map face (selectedCards (settle (state w) (t, c)))
                         = map face (selectedCards (state w))).
      { destruct t, c; try (split; reflexivity).
        - rewrite settle_readingTimer. split; reflexivity.
        - rewrite settle_image.
          destruct (generateCardImage (name card) answer); [|split; reflexivity].
          cbn [question selectedCards]. rewrite map_face_merge. split; reflexivity.
        - rewrite settle_text. split; reflexivity. }
      destruct Hface as [-> ->].
      destruct Hin as [Hin|Hin]; apply in_app_or in Hin; destruct Hin as [Hin|Hin];
        try (apply Hold; auto; fail).
      * destruct t, c; try destruct Hin. cbn [spawned] in Hin.
        apply in_app_or in Hin. destruct Hin as [Hin|[Hin|[]]]; [|discriminate].
        apply in_map_iff in Hin. destruct Hin as [c0 [Hc0 _]]. discriminate.
      * destruct t, c; try destruct Hin. cbn [spawned] in Hin.
        apply in_app_or in Hin. destruct Hin as [Hin|[Hin|[]]].
        -- apply in_map_iff in Hin. destruct Hin as [c0 [Hc0 _]]. discriminate.
        -- injection Hin as <- <-. apply IH. left. exact (nth_error_In _ _ Hk).
Qed.

(** X12.  In every reachable world the page renders slots in
    [Selecting] alone.  There it renders a slot exactly when it is
    one of the 22 and no drawn card sits there, so it renders 22
    slots less the number of drawn cards; in the other states it
    renders none.  In every state a slot can be selected exactly
    when it is rendered. *)
Theorem rendered_slots_are_the_free_ones (w : World) :
  reachable Math_random w ->
  (forall i, In i (renderedSlots w)
             <-> gameState (state w) = Selecting /\ (i < 22)%nat
                 /\ ~ In i (map id (selectedCards (state w))))
  /\ (gameState (state w) = Selecting ->
      (List.length (renderedSlots w) + List.length (selectedCards (state w)) = 22)%nat)
  /\ (gameState (state w) <> Selecting -> renderedSlots w = [])
  /\ (forall i, In i (renderedSlots w) <-> offered w (Select i) = true).
Proof.
  intros Hr.
  pose proof (reachable_layout_length Math_random w Hr) as Hlen.
  pose proof (good_nodup _ _ (reachable_Good Math_random w Hr)) as Hnd.
  assert (Hids : Forall (fun c => (id c < 22)%nat) (selectedCards (state w))).
  { apply (reachable_cards Math_random); [| |exact Hr].
    - intros v index Hv Ho. cbn [id]. cbn [offered] in Ho.
      apply andb_true_iff in Ho as [Ho _]. apply andb_true_iff in Ho as [_ Ho].
      apply Nat.ltb_lt in Ho. rewrite (reachable_layout_length Math_random v Hv) in Ho.
      exact Ho.
    - intros c target cardName answer url Hc _. rewrite merge_id. exact Hc. }
  assert (Hfree : forall i,
             negb (existsb (fun c => (id c =? i)%nat) (selectedCards (state w))) = true
             <-> ~ In i (map id (selectedCards (state w)))).
  { intros i. rewrite negb_true_iff. split.
    - apply existsb_id_In.
    - intros Hn.
      destruct (existsb _ (selectedCards (state w))) eqn:Ex; [|reflexivity].
      exfalso. apply Hn. apply existsb_exists in Ex. destruct Ex as [c [Hc E]].
      apply Nat.eqb_eq in E. rewrite <- E. apply in_map. exact Hc. }
  assert (Hmem : forall i, In i (renderedSlots w)
                           <-> gameState (state w) = Selecting /\ (i < 22)%nat
                               /\ ~ In i (map id (selectedCards (state w)))).
  { intros i. unfold renderedSlots.
    destruct (AppState_eqb (gameState (state w)) Selecting) eqn:Es.
    - apply AppState_eqb_eq in Es. rewrite filter_In, in_seq, Hlen, Hfree.
      unfold totalCards. split.
      + intros [Hi Hn]. split; [exact Es|]. split; [lia|exact Hn].
      + intros [_ [Hi Hn]]. split; [lia|exact Hn].
    - split; [intros []|]. intros [E _]. rewrite E in Es. discriminate. }
  split; [exact Hmem|]. split; [|split].
  - intros Hs. unfold renderedSlots. rewrite Hs. cbn [AppState_eqb]. rewrite Hlen.
    rewrite (filter_out_ids (selectedCards (state w)) (seq 0 totalCards)).
    + rewrite length_seq. reflexivity.
    + apply seq_NoDup.
    + exact Hnd.
    + intros i Hi. apply in_map_iff in Hi. destruct Hi as [c [<- Hc]].
      rewrite Forall_forall in Hids. apply in_seq. specialize (Hids c Hc).
      unfold totalCards. lia.
  - intros Hs. unfold renderedSlots.
    destruct (gameState (state w)); try reflexivity. congruence.
  - intros i. rewrite Hmem. cbn [offered]. rewrite Hlen.
    rewrite !andb_true_iff, Nat.ltb_lt, Hfree. unfold totalCards.
    split.
    + intros [Hs [Hi Hn]]. rewrite Hs. repeat split; assumption.
    + intros [[Hs Hi] Hn]. apply AppState_eqb_eq in Hs. repeat split; assumption.
Qed.

End Shown.

Lemma narrative_is_asked_about_what_is_shown_witness :
  In (TextRequest sampleCards "我的感情运势如何？")
     (pending (runFrom sampleDraws sampleMount toReading))
  /\ "我的感情运势如何？" = question (state (runFrom sampleDraws sampleMount toReading)).
Proof.
  assert (Hin : In (TextRequest sampleCards "我的感情运势如何？")
                   (pending (runFrom sampleDraws sampleMount toReading)))
    by (vm_compute; tauto).
  split; [exact Hin|].
  exact (proj1 (narrative_is_asked_about_what_is_shown sampleDraws _ _ _
                  (sample_reachable toReading) (or_intror Hin))).
Defined.

Lemma rendered_slots_are_the_free_ones_witness :
  gameState (state (runFrom sampleDraws sampleMount toThreeCards)) = Selecting
  /\ (List.length (renderedSlots (runFrom sampleDraws sampleMount toThreeCards))
      + List.length (selectedCards (state (runFrom sampleDraws sampleMount toThreeCards)))
      = 22)%nat.
Proof.
  assert (Hs : gameState (state (runFrom sampleDraws sampleMount toThreeCards)) = Selecting)
    by (vm_compute; reflexivity).
  split; [exact Hs|].
  exact (proj1 (proj2 (rendered_slots_are_the_free_ones sampleDraws _
                         (sample_reachable toThreeCards))) Hs).
Defined.

(* ================================================================= *)
(** ** Further properties of the names shown *)

Lemma hasChar_String (ch c : ascii) (s : string) :
  hasChar ch (String c s) = Ascii.eqb ch c || hasChar ch s.
Proof. reflexivity. Qed.

Lemma beforeChar_stops (ch : ascii) (s : string) : hasChar ch (beforeChar ch s) = false.
Proof.
  induction s as [|c s IH]; [reflexivity|]. cbn [beforeChar].
  destruct (Ascii.eqb c ch) eqn:E; [reflexivity|].
  rewrite hasChar_String, IH, Ascii.eqb_sym, E. reflexivity.
Qed.

Lemma beforeChar_absent (ch : ascii) (s : string) :
  hasChar ch s = false -> beforeChar ch s = s.
Proof.
  induction s as [|c s IH]; [reflexivity|]. rewrite hasChar_String.
  intros H. apply orb_false_iff in H as [H1 H2]. cbn [beforeChar].
  rewrite Ascii.eqb_sym, H1, (IH H2). reflexivity.
Qed.

Lemma dropChars_keeps_absent (ch : ascii) (n : nat) (s : string) :
  hasChar ch s = false -> hasChar ch (dropChars n s) = false.
Proof.
  revert s. induction n as [|n IH]; intros s H; [destruct s; exact H|].
  destruct s as [|c s]; [exact H|]. cbn [dropChars].
  rewrite hasChar_String in H. apply orb_false_iff in H as [_ H]. exact (IH s H).
Qed.

Lemma replaceFirst_keeps_absent (ch : ascii) (pat s : string) :
  hasChar ch s = false -> hasChar ch (replaceFirst pat "" s) = false.
Proof.
  induction s as [|c s IH]; intros H.
  - cbn [replaceFirst]. destruct (prefix pat ""); [|reflexivity].
    cbn [append]. apply dropChars_keeps_absent. exact H.
  - cbn [replaceFirst]. destruct (prefix pat (String c s)).
    + cbn [append]. apply dropChars_keeps_absent. exact H.
    + rewrite hasChar_String in *. apply orb_false_iff in H as [H1 H2].
      rewrite H1, (IH H2). reflexivity.
Qed.

Lemma upToClose_stops (s g : string) : upToClose s = Some g -> hasChar ")" g = false.
Proof.
  revert g. induction s as [|c s IH]; intros g H; [discriminate|].
  cbn [upToClose] in H.
  destruct (Ascii.eqb c ")") eqn:Ec; [injection H as <-; reflexivity|].
  destruct ((nat_of_ascii c =? 10)%nat || (nat_of_ascii c =? 13)%nat); [discriminate|].
  assert (Hrec : option_map (String c) (upToClose s) = Some g -> hasChar ")" g = false).
  { destruct (upToClose s) as [g'|]; [|discriminate]. intros E. injection E as <-.
    rewrite hasChar_String, (IH g' eq_refl), Ascii.eqb_sym, Ec. reflexivity. }
  destruct s as [|c2 [|c3 s3]]; try exact (Hrec H).
  destruct ((nat_of_ascii c =? 226)%nat && (nat_of_ascii c2 =? 128)%nat
            && ((nat_of_ascii c3 =? 168)%nat || (nat_of_ascii c3 =? 169)%nat));
    [discriminate | exact (Hrec H)].
Qed.

Lemma firstGroup_stops (s g : string) : firstGroup s = Some g -> hasChar ")" g = false.
Proof.
  induction s as [|c s IH]; intros H; [discriminate|]. cbn [firstGroup] in H.
  destruct (Ascii.eqb c "("); [|exact (IH H)].
  destruct (upToClose s) as [g'|] eqn:E; [|exact (IH H)].
  injection H as <-. exact (upToClose_stops s g' E).
Qed.

Lemma firstGroup_absent (s : string) : hasChar "(" s = false -> firstGroup s = None.
Proof.
  induction s as [|c s IH]; [reflexivity|]. rewrite hasChar_String.
  intros H. apply orb_false_iff in H as [H1 H2]. cbn [firstGroup].
  rewrite Ascii.eqb_sym, H1. exact (IH H2).
Qed.

(** X13.  Of any name, the name shown in Latin letters holds no
    opening parenthesis and the name shown in Chinese no closing one;
    a name without an opening parenthesis is shown whole but for its
    first "The ", and has no Chinese name.  Of each of the 78 entries
    of the deck the two names are not empty, and together with the
    parentheses, and with the "The " the entry starts with, they give
    the entry back: only that "The " is left out of what is shown. *)
Theorem shown_names_split_the_entry (name : string) :
  hasChar "(" (cleanName name) = false
  /\ hasChar ")" (chineseName name) = false
  /\ (hasChar "(" name = false ->
      cleanName name = replaceFirst "The " "" name /\ chineseName name = "")
  /\ (In name FULL_DECK ->
      JsString.truthy (cleanName name) = true
      /\ JsString.truthy (chineseName name) = true
      /\ name = (if prefix "The " name then "The " else "")
                ++ cleanName name ++ "(" ++ chineseName name ++ ")").
Proof.
  split; [|split; [|split]].
  - unfold cleanName. apply replaceFirst_keeps_absent. apply beforeChar_stops.
  - unfold chineseName. destruct (firstGroup name) as [g|] eqn:E; [|reflexivity].
    exact (firstGroup_stops name g E).
  - intros H. unfold cleanName, chineseName.
    rewrite (beforeChar_absent _ _ H), (firstGroup_absent _ H). split; reflexivity.
  - intros Hin.
    assert (Hall : forallb (fun n =>
                     JsString.truthy (cleanName n) && JsString.truthy (chineseName n)
                     && String.eqb n ((if prefix "The " n then "The " else "")
                                      ++ cleanName n ++ "(" ++ chineseName n ++ ")"))
                     FULL_DECK = true)
      by (vm_compute; reflexivity).
    rewrite forallb_forall in Hall. specialize (Hall name Hin).
    apply andb_true_iff in Hall as [Hall Heq]. apply andb_true_iff in Hall as [Hc Hz].
    apply String.eqb_eq in Heq. auto.
Qed.

Lemma shown_names_split_the_entry_witness :
  In "Wheel of Fortune (命运之轮)" FULL_DECK
  /\ cleanName "Wheel of Fortune (命运之轮)" = "Wheel of Fortune "
  /\ chineseName "Wheel of Fortune (命运之轮)" = "命运之轮"
  /\ JsString.truthy (cleanName "Wheel of Fortune (命运之轮)") = true.
Proof.
  assert (Hin : In "Wheel of Fortune (命运之轮)" FULL_DECK) by (apply inb_In; reflexivity).
  split; [exact Hin|]. split; [reflexivity|]. split; [reflexivity|].
  exact (proj1 (proj2 (proj2 (proj2 (shown_names_split_the_entry _))) Hin)).
Defined.
